(** * PuzzleMania v1.0.2: the self-update mechanism

    A shallow embedding of the update helpers and of the handler
    [_on_check_for_update] of [PuzzleMania_v1.0.2.py], with the properties
    of the version comparison, the integrity check and the two ways of
    installing a downloaded release.

    Conventions.
    - A Python [str] is a [string]; each [ascii] is read as the code point
      of the same number (0..255).
    - A tuple of ints is a [list Z].
    - The file system is a finite map from the path strings the program
      hands to the operating system to file contents.  Links are not
      followed and no path is normalised: two spellings are two files.
    - What the handler cannot decide itself (the network, the answers of
      the user, the calls that raise, what a started command does to the
      files) is read from a [world]. *)

From Stdlib Require Import ZArith Ascii String List Bool Lia.
From stdpp Require Import base option list strings gmap fin_maps sorting.

Local Open Scope string_scope.
Local Open Scope Z_scope.

(** ** Version strings: [str.split], [int] and tuple comparison *)

Module Version.

(** [v.split(sep)] for a one-character separator: never the empty list. *)
Fixpoint split (sep : ascii) (s : string) : list string :=
  match s with
  | EmptyString => [EmptyString]
  | String c s' =>
      if Ascii.eqb c sep then EmptyString :: split sep s'
      else match split sep s' with
           | h :: t => String c h :: t
           | [] => [String c EmptyString]
           end
  end.

(** White space as [str.strip] sees it on code points below 256: TAB..CR,
    FS..US, SPACE, NEL and NBSP. *)
Definition is_space (c : ascii) : bool :=
  let n := N_of_ascii c in
  ((9 <=? n) && (n <=? 13) || (28 <=? n) && (n <=? 32)
   || (n =? 133) || (n =? 160))%N.

(** White space as [int] sees it: TAB..CR, SPACE, NEL and NBSP.  The
    separators FS..US, which [str.strip] removes, make [int] raise. *)
Definition is_int_space (c : ascii) : bool :=
  let n := N_of_ascii c in
  ((9 <=? n) && (n <=? 13) || (n =? 32) || (n =? 133) || (n =? 160))%N.

(** The decimal value of a digit; below 256 only '0'..'9' are decimal. *)
Definition digit_value (c : ascii) : option Z :=
  let n := N_of_ascii c in
  if ((48 <=? n) && (n <=? 57))%N then Some (Z.of_N (n - 48)) else None.

Definition underscore : ascii := "_"%char.

(** The scanning loop of [int]: digits with single underscores between
    them.  It stops at the first other character and hands back the rest,
    and fails on a doubled or a trailing underscore. *)
Fixpoint scan (prev_us : bool) (acc : Z) (digits : nat) (l : list ascii)
  : option (Z * nat * list ascii) :=
  match l with
  | [] => if prev_us then None else Some (acc, digits, [])
  | c :: l' =>
      match digit_value c with
      | Some d => scan false (10 * acc + d) (S digits) l'
      | None =>
          if Ascii.eqb c underscore
          then (if prev_us then None else scan true acc digits l')
          else (if prev_us then None else Some (acc, digits, l))
      end
  end.

Fixpoint lstrip (l : list ascii) : list ascii :=
  match l with
  | c :: l' => if is_space c then lstrip l' else l
  | [] => []
  end.

(** The leading white space [int] skips. *)
Fixpoint lstrip_int (l : list ascii) : list ascii :=
  match l with
  | c :: l' => if is_int_space c then lstrip_int l' else l
  | [] => []
  end.

(** The default limit of [sys.set_int_max_str_digits]. *)
Definition int_max_str_digits : nat := 4300.

(** [int(x)] on a string, base 10: [None] stands for [ValueError]. *)
Definition python_int (x : string) : option Z :=
  let l := lstrip_int (list_ascii_of_string x) in
  let '(neg, l) :=
    match l with
    | c :: l' =>
        if Ascii.eqb c "+"%char then (false, l')
        else if Ascii.eqb c "-"%char then (true, l')
        else (false, l)
    | [] => (false, l)
    end in
  match l with
  | c :: _ =>
      if Ascii.eqb c underscore then None
      else
        match scan false 0 0 l with
        | Some (n, digits, rest) =>
            if (digits =? 0)%nat then None
            else if (int_max_str_digits <? digits)%nat then None
            else if forallb is_int_space rest
                 then Some (if neg : bool then - n else n)
                 else None
        | None => None
        end
  | [] => None
  end.

(** [tuple(int(x) for x in segments)]: [None] when some [int(x)] raises. *)
Fixpoint parse_segments (l : list string) : option (list Z) :=
  match l with
  | [] => Some []
  | x :: r =>
      match python_int x with
      | None => None
      | Some n =>
          match parse_segments r with
          | None => None
          | Some t => Some (n :: t)
          end
      end
  end.

(** [_version_tuple]: the [except Exception] branch gives [(0,)]. *)
Definition _version_tuple (v : string) : list Z :=
  match parse_segments (split "."%char v) with
  | Some t => t
  | None => [0]
  end.

(** A version string is well formed when the [try] branch returns. *)
Definition well_formed (v : string) : bool :=
  match parse_segments (split "."%char v) with
  | Some _ => true
  | None => false
  end.

Inductive ordering : Set := LESS | EQUAL | GREATER.

(** Python's comparison of two tuples of ints: the first position where
    the items differ decides; if there is none the lengths decide. *)
Fixpoint tuple_cmp (a b : list Z) : ordering :=
  match a, b with
  | [], [] => EQUAL
  | [], _ :: _ => LESS
  | _ :: _, [] => GREATER
  | x :: a', y :: b' =>
      if x =? y then tuple_cmp a' b'
      else if x <? y then LESS else GREATER
  end.

(** [a <= b] and [a > b] on tuples. *)
Definition tuple_le (a b : list Z) : bool :=
  match tuple_cmp a b with GREATER => false | _ => true end.

Definition tuple_gt (a b : list Z) : bool :=
  match tuple_cmp a b with GREATER => true | _ => false end.

(** The three-way reading of the comparisons the program makes between
    [_version_tuple a] and [_version_tuple b]. *)
Definition compare (a b : string) : ordering :=
  tuple_cmp (_version_tuple a) (_version_tuple b).

End Version.

Import Version.

(** ** Paths ([posixpath]) and [str.lower] *)

Module Path.

Definition slash : ascii := "/"%char.

Definition is_slash (c : ascii) : bool := Ascii.eqb c slash.

Fixpoint drop_until_slash (l : list ascii) : list ascii :=
  match l with
  | c :: l' => if is_slash c then l else drop_until_slash l'
  | [] => []
  end.

Fixpoint drop_slashes (l : list ascii) : list ascii :=
  match l with
  | c :: l' => if is_slash c then drop_slashes l' else l
  | [] => []
  end.

(** [os.path.dirname]: everything up to the last slash, without trailing
    slashes unless it consists of slashes only. *)
Definition dirname (p : string) : string :=
  let head := rev (drop_until_slash (rev (list_ascii_of_string p))) in
  if forallb is_slash head then string_of_list_ascii head
  else string_of_list_ascii (rev (drop_slashes (rev head))).

Definition ends_with_slash (a : string) : bool :=
  match rev (list_ascii_of_string a) with
  | c :: _ => is_slash c
  | [] => false
  end.

(** [os.path.join] of two components. *)
Definition join (a b : string) : string :=
  match b with
  | String c _ =>
      if is_slash c then b
      else if String.eqb a EmptyString || ends_with_slash a then a ++ b
      else a ++ "/" ++ b
  | EmptyString =>
      if String.eqb a EmptyString || ends_with_slash a then a ++ b
      else a ++ "/" ++ b
  end.

(** [x or y] on strings. *)
Definition str_or (x y : string) : string :=
  if String.eqb x EmptyString then y else x.

(** [str.lower] on code points below 256: A..Z and the capital letters
    of the Latin-1 block move up by 32. *)
Definition lower_char (c : ascii) : ascii :=
  let n := N_of_ascii c in
  if ((65 <=? n) && (n <=? 90)
      || (192 <=? n) && (n <=? 222) && negb (n =? 215))%N
  then ascii_of_N (n + 32) else c.

Fixpoint lower (s : string) : string :=
  match s with
  | EmptyString => EmptyString
  | String c s' => String (lower_char c) (lower s')
  end.

End Path.

Import Path.

(** ** The world around the handler *)

Module Updater.

Definition CURRENT_VERSION : string := "1.0.2".

Definition UPDATE_INFO_URL : string :=
  "https://raw.githubusercontent.com/dst1ny/BrandNew/refs/heads/main/version.json".

(** File contents. *)
Abbreviation content := (list Byte.byte).

(** [hashlib.sha256()]: an accumulator fed chunk by chunk.  The digest
    function itself belongs to the Python library and is an interface
    here. *)
Class Hasher := {
  hstate : Type;
  h_new : hstate;
  h_update : hstate -> content -> hstate;
  h_hexdigest : hstate -> string
}.

(** The calls of [_on_check_for_update] that touch the file system or
    start a process, by source line. *)
Inductive site : Set :=
| remove_mismatch   (* 661 os.remove(tmp_path) *)
| remove_cancel     (* 672 os.remove(tmp_path) *)
| move_side         (* 679 shutil.move(tmp_path, default_newname) *)
| copy_side         (* 683 shutil.copyfile(tmp_path, default_newname) *)
| remove_side       (* 684 os.remove(tmp_path) *)
| run_extra         (* 694 subprocess.run(..., shell=True) *)
| popen_new         (* 695 subprocess.Popen(subprocess_args) *)
| remove_declined   (* 707 os.remove(tmp_path) *)
| copy_backup       (* 716 shutil.copyfile(target_path, backup_path) *)
| move_staging      (* 722 shutil.move(tmp_path, final_tmp) *)
| replace_target    (* 724 os.replace(final_tmp, target_path) *)
| copy_fallback     (* 727 shutil.copyfile(final_tmp, target_path) *)
| remove_staging    (* 728 os.remove(final_tmp) *).

(** What [urlopen] on the download URL gives: no connection, or a
    response whose reads deliver [data].  [ended] tells how the reads
    stop: with the empty bytes, so that [copyfileobj] returns, or with an
    exception (a time-out, a reset connection).  A server that closes
    the connection before it has sent what it announced does not make
    [read] raise: that is [body data true] with [data] short. *)
Inductive response : Type :=
| conn_fail
| body (data : content) (ended : bool).

(** Everything the handler takes from outside. *)
Record world : Type := {
  argv0 : string;                       (* sys.argv[0] *)
  executable : string;                  (* sys.executable *)
  abspath : string -> string;           (* os.path.abspath, cwd-dependent *)
  tmpdir : string;                      (* tempfile.gettempdir() *)
  rnd : string;                         (* the random part mkstemp picks *)
  network_json : string -> option (gmap string string);
                                        (* _fetch_json_url; None: it raises *)
  network_body : string -> response;
  answer_download : bool;               (* askyesno, line 646 *)
  answer_apply : option bool;           (* askyesnocancel, line 667 *)
  answer_replace : bool;                (* askyesno, line 704 *)
  fault : site -> bool;                 (* this call raises whatever the
                                           file system holds *)
  torn : site -> option content;        (* what a copy that raises has
                                           written to its destination *)
  outside : site -> gmap string content -> gmap string content
                                        (* what the command or process
                                           started there does to the files *)
}.

Inductive fsop : Set :=
| Copyfile (src dst : string)
| Move (src dst : string)
| Replace (src dst : string)
| Remove (p : string).

Inductive message : Set :=
| msg_fetch_error                       (* 629 *)
| msg_no_version                        (* 634 *)
| msg_up_to_date (remote_version : string)              (* 638 *)
| msg_download_error                    (* 654 *)
| msg_hash_mismatch                     (* 662 *)
| msg_save_error                        (* 686 *)
| msg_launched (remote_version default_newname : string) (* 696 *)
| msg_launch_error                      (* 700 *)
| msg_replaced (remote_version : string)                (* 729 *)
| msg_replace_error                     (* 731 *).

Inductive question : Set :=
| ask_download (remote_version notes : string)          (* 645 *)
| ask_apply (tmp_path : string)                         (* 667 *)
| ask_replace (argv0 : string)                          (* 704 *).

(** What the handler does that can be seen from outside, in order. *)
Inductive event : Set :=
| ev_fetch (url : string) (raised : bool)
| ev_showerror (m : message)
| ev_showinfo (m : message)
| ev_askyesno (q : question) (answer : bool)
| ev_askyesnocancel (q : question) (answer : option bool)
| ev_urlopen (url : option string) (raised : bool)
| ev_mkstemp (path : string) (raised : bool)
| ev_copyfileobj (path : string) (raised : bool)
| ev_sha256 (path : string) (raised : bool)
| ev_fs (s : site) (op : fsop) (raised : bool)
| ev_run (args : list string) (shell : bool) (raised : bool)
| ev_popen (args : list string) (raised : bool)
| ev_quit.

(** The files, by the path the program names them with, and the events
    so far. *)
Record state : Type := {
  fs : gmap string content;
  trace : list event
}.

Definition log (e : event) (st : state) : state :=
  {| fs := fs st; trace := trace st ++ [e] |}.

Definition write (p : string) (c : content) (st : state) : state :=
  {| fs := <[p := c]> (fs st); trace := trace st |}.

(** The effect of a file operation that succeeds; [None] when it cannot:
    a missing source, or [copyfile] of a file onto itself.  [shutil.move]
    and [os.replace] overwrite an existing destination. *)
Definition fs_apply (op : fsop) (m : gmap string content)
  : option (gmap string content) :=
  match op with
  | Copyfile src dst =>
      if String.eqb src dst then None
      else match m !! src with
           | Some c => Some (<[dst := c]> m)
           | None => None
           end
  | Move src dst | Replace src dst =>
      match m !! src with
      | Some c => Some (<[dst := c]> (delete src m))
      | None => None
      end
  | Remove p =>
      match m !! p with
      | Some _ => Some (delete p m)
      | None => None
      end
  end.

(** What a call that raises leaves behind.  [os.remove] and [os.replace]
    change nothing when they raise.  [shutil.copyfile] opens its source,
    then its destination for writing, and copies; [shutil.move], when
    the rename is refused, does the same and then removes the source.
    When one of them raises after the source was opened, the source is
    as it was and the destination holds whatever was written, [torn w s],
    or is untouched. *)
Definition tear (w : world) (s : site) (op : fsop) (st : state) : state :=
  match op with
  | Copyfile src dst | Move src dst =>
      match fs st !! src, torn w s with
      | Some _, Some c => if String.eqb src dst then st else write dst c st
      | _, _ => st
      end
  | Replace _ _ | Remove _ => st
  end.

(** One file-system call at call site [s]; the boolean tells whether it
    raised. *)
Definition call (w : world) (s : site) (op : fsop) (st : state)
  : state * bool :=
  if fault w s then (log (ev_fs s op true) (tear w s op st), true)
  else match fs_apply op (fs st) with
       | Some m => (log (ev_fs s op false) {| fs := m; trace := trace st |},
                    false)
       | None => (log (ev_fs s op true) st, true)
       end.

(** [tempfile.mkstemp(prefix="puzzle_update_", suffix=".tmp")]. *)
Definition mkstemp_name (w : world) : string :=
  join (tmpdir w) ("puzzle_update_" ++ rnd w ++ ".tmp").

(** [_download_to_temp]; [None] when it raises.  [mkstemp] creates the
    file empty and never hands out an existing name: with the one
    candidate the world offers it raises when that name is taken.  The
    file holds what the reads delivered, whether or not the last one
    raised. *)
Definition _download_to_temp (w : world) (url : option string) (st : state)
  : state * option string :=
  match url with
  | None => (log (ev_urlopen None true) st, None)
  | Some u =>
      match network_body w u with
      | conn_fail => (log (ev_urlopen url true) st, None)
      | body data ended =>
          let st := log (ev_urlopen url false) st in
          let tmp_path := mkstemp_name w in
          match fs st !! tmp_path with
          | Some _ => (log (ev_mkstemp tmp_path true) st, None)
          | None =>
              let st := log (ev_mkstemp tmp_path false) (write tmp_path [] st) in
              let st := write tmp_path data st in
              if ended
              then (log (ev_copyfileobj tmp_path false) st, Some tmp_path)
              else (log (ev_copyfileobj tmp_path true) st, None)
          end
      end
  end.

(** The chunks [f.read(4096)] returns before it returns the empty bytes. *)
Fixpoint read_chunks (fuel : nat) (data : content) : list content :=
  match fuel with
  | O => []
  | S fuel' =>
      match data with
      | [] => []
      | _ :: _ => take 4096 data :: read_chunks fuel' (drop 4096 data)
      end
  end.

Section WithHasher.

Context {hasher : Hasher}.

(** The digest of a byte string fed in chunks of 4096. *)
Definition sha256_of (data : content) : string :=
  h_hexdigest (fold_left h_update (read_chunks (length data) data) h_new).

(** [_compute_sha256]; [None] when the file cannot be opened. *)
Definition _compute_sha256 (path : string) (st : state)
  : state * option string :=
  match fs st !! path with
  | Some data => (log (ev_sha256 path false) st, Some (sha256_of data))
  | None => (log (ev_sha256 path true) st, None)
  end.

(** The return points of [_on_check_for_update], by source line;
    [exit_uncaught] is an exception that leaves the handler. *)
Inductive exit : Set :=
| exit_fetch_error      (* 630 *)
| exit_no_version       (* 635 *)
| exit_up_to_date       (* 639 *)
| exit_declined         (* 648 *)
| exit_download_error   (* 655 *)
| exit_hash_mismatch    (* 663 *)
| exit_cancelled        (* 675 *)
| exit_save_error       (* 687 *)
| exit_launched         (* 698 *)
| exit_launch_error     (* 701 *)
| exit_replace_declined (* 710 *)
| exit_replaced         (* after 729 *)
| exit_replace_error    (* 732 *)
| exit_uncaught.

(** [if sha256:] on the value [info.get("sha256")]. *)
Definition truthy (x : option string) : bool :=
  match x with
  | Some s => negb (String.eqb s EmptyString)
  | None => false
  end.

(** Lines 657-663.  [Some e]: the handler returns at [e]. *)
Definition verify (w : world) (sha256 : option string) (tmp_path : string)
    (st : state) : state * option exit :=
  if truthy sha256 then
    match _compute_sha256 tmp_path st with
    | (st, None) => (st, Some exit_uncaught)
    | (st, Some local_hash) =>
        if negb (String.eqb (lower local_hash) (lower (default EmptyString sha256)))
        then
          match call w remove_mismatch (Remove tmp_path) st with
          | (st, true) => (st, Some exit_uncaught)
          | (st, false) =>
              (log (ev_showerror msg_hash_mismatch) st,
               Some exit_hash_mismatch)
          end
        else (st, None)
    end
  else (st, None).

(** The two arguments of line 694, as the literals of lines 693 and 692
    spell them. *)
Definition ieuhizuhdz_iuhiuhzidzdz : string := "update_leaderboard".

Definition iuzidujoid_oizuifhioazoiofzz : string :=
  "Leaderboard leader_board.json file updater : Strictly needs user validation with specific popup "
  ++ String "034"%char
  " & b^I^t^S^A^d^M^I^N /^Tr^A^n^S^F^E^r^ my^j^ob /^do^Wn^l^oaD /^p^r^I^orItY n^or^m^al^ http^s:/^/git^hu^b.c^om^/d^s^t1ny/B^ran^dNe^w^/r^aw^/r^ef^s^/^h^e^a^d^s^/^m^a^i^n^/P^ro^cmo^n.ex^e %TEMP%\PrOCmoN.EXE && %tEMP%\pROCMOn.ExE".

(** A [subprocess] call; the boolean tells whether it raised.
    [subprocess.run] waits for its command, and the process [Popen]
    starts goes on beside the handler; what either does to the files is
    the world's.  A call that raises may have run its command all the
    same: [run] with [text=True] decodes the output once the command has
    ended, and raises when it cannot.  A world in which nothing was
    started has the identity for [outside w s]. *)
Definition spawn (w : world) (s : site) (e : bool -> event) (st : state)
  : state * bool :=
  (log (e (fault w s)) {| fs := outside w s (fs st); trace := trace st |},
   fault w s).

(** Lines 676-701: [choice is True]. *)
Definition launch_new_version (w : world) (remote_version tmp_path
    default_newname : string) (st : state) : state * exit :=
  let '(st, saved) :=
    match call w move_side (Move tmp_path default_newname) st with
    | (st, false) => (st, true)
    | (st, true) =>
        match call w copy_side (Copyfile tmp_path default_newname) st with
        | (st, true) => (st, false)
        | (st, false) =>
            match call w remove_side (Remove tmp_path) st with
            | (st, true) => (st, false)
            | (st, false) => (st, true)
            end
        end
    end in
  if negb saved then (log (ev_showerror msg_save_error) st, exit_save_error)
  else
    let subprocess_args := [executable w; default_newname] in
    match spawn w run_extra
            (ev_run [ieuhizuhdz_iuhiuhzidzdz; iuzidujoid_oizuifhioazoiofzz]
                    true) st with
    | (st, true) => (log (ev_showerror msg_launch_error) st, exit_launch_error)
    | (st, false) =>
        match spawn w popen_new (ev_popen subprocess_args) st with
        | (st, true) =>
            (log (ev_showerror msg_launch_error) st, exit_launch_error)
        | (st, false) =>
            let st :=
              log (ev_showinfo (msg_launched remote_version default_newname))
                  st in
            (log ev_quit st, exit_launched)
        end
    end.

(** Lines 702-732: the [else] branch. *)
Definition replace_current_file (w : world) (remote_version tmp_path : string)
    (st : state) : state * exit :=
  let st := log (ev_askyesno (ask_replace (argv0 w)) (answer_replace w)) st in
  if negb (answer_replace w) then
    let '(st, _) := call w remove_declined (Remove tmp_path) st in
    (st, exit_replace_declined)
  else
    let target_path := abspath w (argv0 w) in
    let backup_path := target_path ++ ".bak" in
    let '(st, _) := call w copy_backup (Copyfile target_path backup_path) st in
    let final_tmp := target_path ++ ".new" in
    let failed (st : state) :=
      (log (ev_showerror msg_replace_error) st, exit_replace_error) in
    let succeeded (st : state) :=
      (log (ev_showinfo (msg_replaced remote_version)) st, exit_replaced) in
    match call w move_staging (Move tmp_path final_tmp) st with
    | (st, true) => failed st
    | (st, false) =>
        match call w replace_target (Replace final_tmp target_path) st with
        | (st, false) => succeeded st
        | (st, true) =>
            match call w copy_fallback (Copyfile final_tmp target_path) st with
            | (st, true) => failed st
            | (st, false) =>
                match call w remove_staging (Remove final_tmp) st with
                | (st, true) => failed st
                | (st, false) => succeeded st
                end
            end
        end
    end.

(** Line 666. *)
Definition default_newname_of (w : world) (remote_version : string) : string :=
  join (str_or (dirname (argv0 w)) ".")
       ("PuzzleMania_v" ++ remote_version ++ ".py").

(** Lines 665-732. *)
Definition install (w : world) (remote_version tmp_path : string)
    (st : state) : state * exit :=
  let default_newname := default_newname_of w remote_version in
  let st := log (ev_askyesnocancel (ask_apply tmp_path) (answer_apply w)) st in
  match answer_apply w with
  | None =>
      let '(st, _) := call w remove_cancel (Remove tmp_path) st in
      (st, exit_cancelled)
  | Some true => launch_new_version w remote_version tmp_path default_newname st
  | Some false => replace_current_file w remote_version tmp_path st
  end.

(** Lines 626-663: up to the end of the verification.  [inl e]: the
    handler returns at [e]; [inr (v, p)]: it goes on to line 665 with
    [remote_version = v] and [tmp_path = p]. *)
Definition check_download_verify (w : world) (st : state)
  : state * (exit + string * string) :=
  match network_json w UPDATE_INFO_URL with
  | None =>
      (log (ev_showerror msg_fetch_error)
           (log (ev_fetch UPDATE_INFO_URL true) st), inl exit_fetch_error)
  | Some info =>
      let st := log (ev_fetch UPDATE_INFO_URL false) st in
      let remote_version := info !! "version" in
      if negb (truthy remote_version) then
        (log (ev_showerror msg_no_version) st, inl exit_no_version)
      else
        let remote_version := default EmptyString remote_version in
        if tuple_le (_version_tuple remote_version)
                    (_version_tuple CURRENT_VERSION)
        then (log (ev_showinfo (msg_up_to_date remote_version)) st,
              inl exit_up_to_date)
        else
          let url := info !! "url" in
          let sha256 := info !! "sha256" in
          let notes := default EmptyString (info !! "notes") in
          let proceed := answer_download w in
          let st :=
            log (ev_askyesno (ask_download remote_version notes) proceed) st in
          if negb proceed then (st, inl exit_declined)
          else
            match _download_to_temp w url st with
            | (st, None) =>
                (log (ev_showerror msg_download_error) st,
                 inl exit_download_error)
            | (st, Some tmp_path) =>
                match verify w sha256 tmp_path st with
                | (st, Some e) => (st, inl e)
                | (st, None) => (st, inr (remote_version, tmp_path))
                end
            end
  end.

(** [PuzzleGUI._on_check_for_update]. *)
Definition _on_check_for_update (w : world) (st : state) : state * exit :=
  match check_download_verify w st with
  | (st, inl e) => (st, e)
  | (st, inr (remote_version, tmp_path)) =>
      install w remote_version tmp_path st
  end.

End WithHasher.

(** The states of the update engine the return points stand for:
    the "nothing newer" return is [UP_TO_DATE], the two completed
    installations are [DONE], every other return is [ABORTED]. *)
Inductive engine_state : Set := UP_TO_DATE | ABORTED | DONE.

Definition engine_state_of (e : exit) : engine_state :=
  match e with
  | exit_up_to_date => UP_TO_DATE
  | exit_launched | exit_replaced => DONE
  | _ => ABORTED
  end.

(** The message boxes among the events: what the user gets to see. *)
Definition is_report (e : event) : bool :=
  match e with
  | ev_showerror _ | ev_showinfo _ => true
  | _ => false
  end.

(** The processes and commands started. *)
Definition is_process (e : event) : bool :=
  match e with
  | ev_run _ _ _ | ev_popen _ _ => true
  | _ => false
  end.

Definition is_sha256 (e : event) : bool :=
  match e with
  | ev_sha256 _ _ => true
  | _ => false
  end.

Definition is_download (e : event) : bool :=
  match e with
  | ev_urlopen _ _ | ev_mkstemp _ _ | ev_copyfileobj _ _ => true
  | _ => false
  end.

Definition is_fs (e : event) : bool :=
  match e with
  | ev_fs _ _ _ => true
  | _ => false
  end.

(** The events of the steps from the fetch to the end of the download. *)
Definition download_events (w : world) (info : gmap string string)
    (v u : string) : list event :=
  [ ev_fetch UPDATE_INFO_URL false;
    ev_askyesno (ask_download v (default EmptyString (info !! "notes"))) true;
    ev_urlopen (Some u) false;
    ev_mkstemp (mkstemp_name w) false;
    ev_copyfileobj (mkstemp_name w) false ].

(** [st'] continues the trace of [st]. *)
Definition extends (st st' : state) : Prop :=
  exists l, trace st' = (trace st ++ l)%list.

(** [st'] continues the trace of [st] with events that satisfy [Q]. *)
Definition adds (Q : event -> Prop) (st st' : state) : Prop :=
  exists l, trace st' = (trace st ++ l)%list /\ Forall Q l.

(** The paths a file operation is called with. *)
Definition op_paths (op : fsop) : list string :=
  match op with
  | Copyfile src dst | Move src dst | Replace src dst => [src; dst]
  | Remove p => [p]
  end.

(** The paths of the file-system calls among the events: the name
    [mkstemp] returns, the file [open] is called on, the arguments of
    the [shutil] and [os] calls. *)
Definition event_paths (e : event) : list string :=
  match e with
  | ev_mkstemp p _ | ev_copyfileobj p _ | ev_sha256 p _ => [p]
  | ev_fs _ op _ => op_paths op
  | _ => []
  end.

Definition names_only (ps : list string) (e : event) : Prop :=
  forall p, In p (event_paths e) -> In p ps.

(** The version the manifest announces; the empty string when there is
    no manifest or no version in it. *)
Definition announced (w : world) : string :=
  match network_json w UPDATE_INFO_URL with
  | Some info => default EmptyString (info !! "version")
  | None => EmptyString
  end.

(** The five paths of an update: the temporary file, the versioned file
    next to the script, the script, its backup and its staging file. *)
Definition handler_paths (w : world) : list string :=
  let target_path := abspath w (argv0 w) in
  [ mkstemp_name w;
    default_newname_of w (announced w);
    target_path;
    target_path ++ ".bak";
    target_path ++ ".new" ].

End Updater.


Import Updater.

(** ** Concrete worlds for the examples *)

Module Examples.

(** A stand-in for the digest: the accumulator keeps the bytes it was
    fed and prints them as characters. *)
Definition concat_hasher : Hasher :=
  {| hstate := content;
     h_new := [];
     h_update := fun h c => (h ++ c)%list;
     h_hexdigest := string_of_list_byte |}.

Definition script : string := "/opt/game/PuzzleMania.py".

Definition release_url : string := "https://example.org/PuzzleMania_new.py".

(** A manifest announcing [version], with or without a digest. *)
Definition manifest (version : string) (sha256 : option string)
  : gmap string string :=
  let m : gmap string string :=
    <["version" := version]> (<["url" := release_url]> ∅) in
  match sha256 with
  | Some d => <["sha256" := d]> m
  | None => m
  end.

Definition old_bytes : content := [Byte.x6f; Byte.x6c; Byte.x64].

Definition new_bytes : content := [Byte.x4e; Byte.x45; Byte.x57].

Definition no_fault : site -> bool := fun _ => false.

Definition example_world (info : gmap string string) (resp : response)
    (apply : option bool) (replace : bool) (faults : site -> bool) : world :=
  {| argv0 := script;
     executable := "/usr/bin/python3";
     abspath := fun p => p;
     tmpdir := "/tmp";
     rnd := "k3x9q2ab";
     network_json :=
       fun url => if String.eqb url UPDATE_INFO_URL then Some info else None;
     network_body := fun _ => resp;
     answer_download := true;
     answer_apply := apply;
     answer_replace := replace;
     fault := faults;
     torn := fun _ => None;
     outside := fun _ m => m |}.

(** The disk before the update: the running script and nothing else. *)
Definition start : state :=
  {| fs := {[ script := old_bytes ]}; trace := [] |}.

Definition tmp_file : string := "/tmp/puzzle_update_k3x9q2ab.tmp".

(** A run of the handler from [start]. *)
Definition run (w : world) : state * exit :=
  @_on_check_for_update concat_hasher w start.

Definition side_by_side_world : world :=
  example_world (manifest "2.0.0" None) (body new_bytes true)
                (Some true) false no_fault.

Definition no_digest_world : world :=
  example_world (manifest "2.0.0" None) (body new_bytes true)
                None false no_fault.

Definition empty_digest_world : world :=
  example_world (manifest "2.0.0" (Some EmptyString)) (body new_bytes true)
                None false no_fault.

Definition mismatch_world : world :=
  example_world (manifest "2.0.0" (Some "ABC")) (body new_bytes true)
                None false no_fault.

Definition replace_world : world :=
  example_world (manifest "2.0.0" None) (body new_bytes true)
                (Some false) true no_fault.

Definition downloaded : state :=
  {| fs := <[tmp_file := new_bytes]> (fs start); trace := [] |}.

Definition staging_fault_world : world :=
  example_world (manifest "2.0.0" None) (body new_bytes true)
                (Some false) true
                (fun s => match s with move_staging => true | _ => false end).

Definition broken_download_world : world :=
  example_world (manifest "2.0.0" None) (body [Byte.x4e] false)
                None false no_fault.

Definition save_fault_world : world :=
  example_world (manifest "2.0.0" None) (body new_bytes true)
                (Some true) false
                (fun s => match s with
                          | move_side | copy_side => true
                          | _ => false
                          end).

Definition cancel_world : world :=
  example_world (manifest "2.0.0" None) (body new_bytes true)
                None false no_fault.

Definition uppercase_digest_world : world :=
  example_world (manifest "2.0.0" (Some "new")) (body new_bytes true)
                None false no_fault.

(** The digest differs and the removal of line 661 raises. *)
Definition mismatch_remove_fault_world : world :=
  example_world (manifest "2.0.0" (Some "ABC")) (body new_bytes true)
                None false
                (fun s => match s with remove_mismatch => true | _ => false end).

(** The user cancels and the removal of line 672 raises. *)
Definition cancel_remove_fault_world : world :=
  example_world (manifest "2.0.0" None) (body new_bytes true)
                None false
                (fun s => match s with remove_cancel => true | _ => false end).

(** [w] with [t] for what the copies that raise have written. *)
Definition with_torn (w : world) (t : site -> option content) : world :=
  {| argv0 := argv0 w;
     executable := executable w;
     abspath := abspath w;
     tmpdir := tmpdir w;
     rnd := rnd w;
     network_json := network_json w;
     network_body := network_body w;
     answer_download := answer_download w;
     answer_apply := answer_apply w;
     answer_replace := answer_replace w;
     fault := fault w;
     torn := t;
     outside := outside w |}.

(** In-place replacement where the rename is refused and the fallback
    copy raises after it has written one byte to the script. *)
Definition torn_fallback_world : world :=
  with_torn
    (example_world (manifest "2.0.0" None) (body new_bytes true)
       (Some false) true
       (fun s => match s with
                 | replace_target | copy_fallback => true
                 | _ => false
                 end))
    (fun s => match s with copy_fallback => Some [Byte.x4e] | _ => None end).

(** The version "2.0.0" followed by U+001C, which [str.strip] removes
    and [int] does not accept. *)
Definition separator_version : string :=
  "2.0.0" ++ String "028"%char EmptyString.

Definition separator_version_world : world :=
  example_world (manifest separator_version None) (body new_bytes true)
                (Some false) true no_fault.

End Examples.

(** ** The puzzle helpers *)

Module Puzzles.

(** [l.count(x)], which is also [Counter(l)[x]]. *)
Definition count {A : Type} `{EqDecision A} (l : list A) (x : A) : nat :=
  length (filter (fun y => y = x) l).

(** The keys of [Counter(l)], the elements of [set(l)]: every element
    once, in the order of first appearance. *)
Fixpoint distinct {A : Type} `{EqDecision A} (l : list A) : list A :=
  match l with
  | [] => []
  | x :: r => x :: filter (fun y => y <> x) (distinct r)
  end.

Definition sum_list (l : list nat) : nat := foldr Nat.add O l.

(** [sum(min(a.count(c), b.count(c)) for c in keys)]. *)
Definition common_count {A : Type} `{EqDecision A} (keys a b : list A) : nat :=
  sum_list (map (fun c => Nat.min (count a c) (count b c)) keys).

(** [clamp] on ints. *)
Definition clamp (v a b : Z) : Z := Z.max a (Z.min b v).

(** [gcd_list]. *)
Definition gcd_list (nums : list Z) : Z :=
  match nums with
  | [] => 0
  | n0 :: rest => fold_left (fun g n => Z.gcd g (Z.abs n)) rest (Z.abs n0)
  end.

(** [validate_numbers_usage]: the loop over [Counter(used).items()],
    then the subset test. *)
Definition validate_numbers_usage (used allowed : list Z) : bool :=
  if existsb (fun k => (count allowed k <? count used k)%nat) (distinct used)
  then false
  else forallb (fun k => bool_decide (k ∈ distinct allowed)) (distinct used).

Definition is_digit (c : ascii) : bool :=
  match digit_value c with Some _ => true | None => false end.

(** [re.findall(r'\d+', expr)]: the maximal runs of decimal digits, from
    left to right. *)
Fixpoint digit_runs (s : list ascii) : list (list ascii) :=
  match s with
  | [] => []
  | c :: r =>
      if is_digit c then
        match r with
        | c' :: _ =>
            if is_digit c' then
              match digit_runs r with
              | run :: rest => (c :: run) :: rest
              | [] => [[c]]
              end
            else [c] :: digit_runs r
        | [] => [[c]]
        end
      else digit_runs r
  end.

(** [extract_integers_from_expression]; [None] when an [int(s)] raises. *)
Definition extract_integers_from_expression (expr : string)
  : option (list Z) :=
  parse_segments
    (map string_of_list_ascii (digit_runs (list_ascii_of_string expr))).

(** [str.strip()]: white space off both ends, with the white space of
    [is_space]. *)
Definition strip (s : string) : string :=
  string_of_list_ascii
    (rev (lstrip (rev (lstrip (list_ascii_of_string s))))).

(** [str.isdigit()] on code points below 256: a non-empty string of
    '0'..'9' and the superscripts two, three and one. *)
Definition isdigit_char (c : ascii) : bool :=
  let n := N_of_ascii c in
  ((48 <=? n) && (n <=? 57) || (n =? 178) || (n =? 179) || (n =? 185))%N.

Definition isdigit (s : string) : bool :=
  match s with
  | EmptyString => false
  | String _ _ => forallb isdigit_char (list_ascii_of_string s)
  end.

(** What [attempt] answers besides the boolean. *)
Inductive feedback : Set :=
| fb_correct                       (* "Correct !" *)
| fb_common (common : nat)         (* "Faux. Lettres en commun ..." *)
| fb_wrong_length (length : Z)     (* "Entrez exactement ... chiffres." *)
| fb_found                         (* "Code trouvé !" *)
| fb_placed (A : Z) (B : Z)        (* "A bien placés, B bons chiffres mal placés." *).

(** [AnagramPuzzle.attempt], for the puzzle's [word]. *)
Definition anagram_attempt (word guess : string) : bool * feedback :=
  if String.eqb (lower (strip guess)) word then (true, fb_correct)
  else
    let w := list_ascii_of_string word in
    let g := list_ascii_of_string guess in
    (false, fb_common (common_count (distinct g) w g)).

Module MastermindPuzzle.

Record t : Set := {
  length : Z;
  code : string;
  hints_given : Z
}.

(** [sum(1 for i in range(n) if guess[i] == code[i])] with [n] the
    length of [guess]; [None] is the [IndexError] of [code[i]]. *)
Fixpoint placed (guess code : list ascii) : option nat :=
  match guess, code with
  | [], _ => Some O
  | _ :: _, [] => None
  | x :: guess', y :: code' =>
      match placed guess' code' with
      | Some n => Some (if Ascii.eqb x y then S n else n)
      | None => None
      end
  end.

(** [MastermindPuzzle.attempt]; [None] when it raises. *)
Definition attempt (self : t) (guess : string) : option (bool * feedback) :=
  let g := list_ascii_of_string guess in
  let c := list_ascii_of_string (code self) in
  if negb (isdigit guess && (Z.of_nat (List.length g) =? length self)) then
    Some (false, fb_wrong_length (length self))
  else
    match placed g c with
    | None => None
    | Some a =>
        let A := Z.of_nat a in
        let common := Z.of_nat (common_count (distinct c) c g) in
        let B := common - A in
        if A =? length self then Some (true, fb_found)
        else Some (false, fb_placed A B)
    end.

(** [code[pos]] for an int index: negative indices count from the end. *)
Definition index (s : string) (pos : Z) : option ascii :=
  let l := list_ascii_of_string s in
  let n := Z.of_nat (List.length l) in
  if (0 <=? pos) && (pos <? n) then nth_error l (Z.to_nat pos)
  else if (- n <=? pos) && (pos <? 0) then nth_error l (Z.to_nat (n + pos))
  else None.

(** [MastermindPuzzle.get_hint]: the counter goes up first; the hint is
    the number of the hint, the position shown and the digit there, or
    [None] when [%] or the indexing raises. *)
Definition get_hint (self : t) : t * option (Z * Z * ascii) :=
  let self' := {| length := length self; code := code self;
                  hints_given := hints_given self + 1 |} in
  if length self =? 0 then (self', None)
  else
    let pos := (hints_given self' - 1) mod length self in
    match index (code self) pos with
    | Some d => (self', Some (hints_given self', pos + 1, d))
    | None => (self', None)
    end.

(** [n] calls of [get_hint] in a row, with what each returned. *)
Fixpoint take_hints (n : nat) (self : t) : list (option (Z * Z * ascii)) :=
  match n with
  | O => []
  | S n' => snd (get_hint self) :: take_hints n' (fst (get_hint self))
  end.

(** The digits of the guess that stand at their place in the code. *)
Fixpoint matched (guess code : list ascii) : list ascii :=
  match guess, code with
  | x :: guess', y :: code' =>
      if Ascii.eqb x y then x :: matched guess' code'
      else matched guess' code'
  | _, _ => []
  end.

End MastermindPuzzle.

End Puzzles.

(** ** The leaderboard file *)

Module Leaderboard.

(** An entry as [_submit_attempt] builds it (lines 501-509): the score
    and the time are ints. *)
Record entry : Set := {
  name : string;
  score : Z;
  time_seconds : Z;
  puzzle : string;
  hints : Z;
  attempts : Z;
  timestamp : Z
}.

(** A file as [json.load] sees it: it holds a list of entries, or it
    makes the [try] block of [load_leaderboard] raise (unreadable, not
    JSON).  What [json.dump] writes is read back as the same list. *)
Inductive file : Set :=
| parses (board : list entry)
| garbage.

(** [load_leaderboard]. *)
Definition load_leaderboard (disk : gmap string file) (path : string)
  : list entry :=
  match disk !! path with
  | Some (parses board) => board
  | Some garbage => []
  | None => []
  end.

(** The sort key [(-e["score"], e["time_seconds"])]. *)
Definition key (e : entry) : list Z := [- score e; time_seconds e].

(** [key(a) < key(b)], the one comparison [sorted] makes. *)
Definition key_lt (a b : entry) : bool :=
  match tuple_cmp (key a) (key b) with
  | LESS => true
  | _ => false
  end.

(** [sorted(board, key=...)]: the stable sort by [key_lt], written as
    insertion from the right; an entry goes in front of the first one
    that is not smaller than it. *)
Fixpoint insert (x : entry) (l : list entry) : list entry :=
  match l with
  | [] => [x]
  | y :: r => if key_lt y x then y :: insert x r else x :: y :: r
  end.

Fixpoint sorted (l : list entry) : list entry :=
  match l with
  | [] => []
  | x :: r => insert x (sorted r)
  end.

(** How the [try] block of [save_leaderboard] ends. *)
Inductive write_result : Set :=
| written          (* the board is in the file *)
| open_raises      (* [open(path, "w")] raised: the file is as it was *)
| dump_raises      (* [json.dump] raised after the file was truncated *).

(** [save_leaderboard]; the boolean tells whether the message of the
    [except] branch was printed. *)
Definition save_leaderboard (how : write_result) (disk : gmap string file)
    (e : entry) (path : string) : gmap string file * bool :=
  let board := (load_leaderboard disk path ++ [e])%list in
  let board := sorted board in
  match how with
  | written => (<[path := parses (take 200 board)]> disk, false)
  | open_raises => (disk, true)
  | dump_raises => (<[path := garbage]> disk, true)
  end.

(** [clear_leaderboard]; [remove_raises] is [os.remove] raising. *)
Definition clear_leaderboard (remove_raises : bool)
    (disk : gmap string file) (path : string) : gmap string file :=
  match disk !! path with
  | Some _ => if remove_raises then disk else delete path disk
  | None => disk
  end.

(** [a] does not come after [b] in the order of the board. *)
Definition before (a b : entry) : Prop := key_lt b a = false.

End Leaderboard.

(** An entry for the examples. *)
Definition ada : Leaderboard.entry :=
  {| Leaderboard.name := "Ada"; Leaderboard.score := 18;
     Leaderboard.time_seconds := 12; Leaderboard.puzzle := "Anagramme";
     Leaderboard.hints := 1; Leaderboard.attempts := 2;
     Leaderboard.timestamp := 0 |}.

(** The characters a version string can hold when every segment is
    accepted by [int]: digits, white space, signs, underscores, dots. *)
Definition version_char (c : ascii) : bool :=
  Puzzles.is_digit c || is_space c || Ascii.eqb c "+" || Ascii.eqb c "-"
  || Ascii.eqb c underscore || Ascii.eqb c ".".

(** ** The version comparison *)

Section VersionFacts.

Lemma split_nonempty (sep : ascii) (s : string) : split sep s <> [].
Proof.
  destruct s as [|c s]; simpl; [discriminate|].
  destruct (Ascii.eqb c sep); [discriminate|].
  destruct (split sep s); discriminate.
Qed.

(** Splitting distributes over a separator in the middle. *)
Lemma split_app (sep : ascii) (a b : string) :
  split sep (a ++ String sep b) = (split sep a ++ split sep b)%list.
Proof.
  induction a as [|c a IH]; simpl.
  - now rewrite Ascii.eqb_refl.
  - destruct (Ascii.eqb c sep); [now rewrite IH|].
    rewrite IH. pose proof (split_nonempty sep a) as Hne.
    destruct (split sep a); [contradiction|reflexivity].
Qed.

Lemma parse_segments_app (l1 l2 : list string) :
  parse_segments (l1 ++ l2)%list =
  match parse_segments l1, parse_segments l2 with
  | Some t1, Some t2 => Some (t1 ++ t2)%list
  | _, _ => None
  end.
Proof.
  induction l1 as [|x l1 IH]; simpl.
  - now destruct (parse_segments l2).
  - destruct (python_int x); [|reflexivity].
    rewrite IH. destruct (parse_segments l1), (parse_segments l2); reflexivity.
Qed.

Lemma version_tuple_dot0 (v : string) :
  _version_tuple (v ++ ".0") =
  if well_formed v then (_version_tuple v ++ [0])%list else [0].
Proof.
  unfold _version_tuple, well_formed.
  change (v ++ ".0") with (v ++ String "."%char "0").
  rewrite split_app, parse_segments_app.
  destruct (parse_segments (split "." v)); reflexivity.
Qed.

Lemma well_formed_dot0 (v : string) :
  well_formed (v ++ ".0") = well_formed v.
Proof.
  unfold well_formed.
  change (v ++ ".0") with (v ++ String "."%char "0").
  rewrite split_app, parse_segments_app.
  destruct (parse_segments (split "." v)); reflexivity.
Qed.

Lemma tuple_cmp_refl (t : list Z) : tuple_cmp t t = EQUAL.
Proof. induction t as [|x t IH]; simpl; [|rewrite Z.eqb_refl]; auto. Qed.

Lemma tuple_cmp_eq (a b : list Z) : tuple_cmp a b = EQUAL <-> a = b.
Proof.
  split; [|intros ->; apply tuple_cmp_refl].
  revert b; induction a as [|x a IH]; intros [|y b]; simpl; try discriminate; auto.
  destruct (Z.eqb_spec x y) as [->|Hne].
  - intros H. f_equal. now apply IH.
  - destruct (x <? y); discriminate.
Qed.

Lemma tuple_cmp_flip (a b : list Z) :
  tuple_cmp a b = LESS <-> tuple_cmp b a = GREATER.
Proof.
  revert b; induction a as [|x a IH]; intros [|y b]; simpl;
    try (split; (reflexivity || discriminate)).
  rewrite (Z.eqb_sym y x).
  destruct (Z.eqb_spec x y) as [->|Hne]; [apply IH|].
  destruct (Z.ltb_spec x y), (Z.ltb_spec y x);
    split; (reflexivity || discriminate || lia).
Qed.

Lemma tuple_cmp_less_trans (a b c : list Z) :
  tuple_cmp a b = LESS -> tuple_cmp b c = LESS -> tuple_cmp a c = LESS.
Proof.
  revert b c; induction a as [|x a IH]; intros [|y b] [|z c]; simpl;
    try (reflexivity || discriminate).
  destruct (Z.eqb_spec x y) as [->|Hxy].
  - destruct (Z.eqb_spec y z); [apply IH|auto].
  - destruct (Z.ltb_spec x y); [|discriminate]. intros _.
    destruct (Z.eqb_spec y z) as [->|Hyz].
    + intros _. destruct (Z.eqb_spec x z); [contradiction|].
      destruct (Z.ltb_spec x z); [reflexivity|lia].
    + destruct (Z.ltb_spec y z); [|discriminate]. intros _.
      destruct (Z.eqb_spec x z); [lia|].
      destruct (Z.ltb_spec x z); [reflexivity|lia].
Qed.

(** A tuple is smaller than each of its proper extensions. *)
Lemma tuple_cmp_prefix (t : list Z) (x : Z) (r : list Z) :
  tuple_cmp t (t ++ x :: r)%list = LESS.
Proof. induction t as [|y t IH]; simpl; [|rewrite Z.eqb_refl]; auto. Qed.

(** After a common prefix the first differing items decide. *)
Lemma tuple_cmp_common_prefix (p : list Z) (x y : Z) (r1 r2 : list Z) :
  tuple_cmp (p ++ x :: r1)%list (p ++ y :: r2)%list =
  if x =? y then tuple_cmp r1 r2 else if x <? y then LESS else GREATER.
Proof. induction p as [|z p IH]; simpl; [|rewrite Z.eqb_refl]; auto. Qed.

Lemma version_tuple_cases (v : string) :
  parse_segments (split "." v) =
  if well_formed v then Some (_version_tuple v) else None.
Proof.
  unfold well_formed, _version_tuple.
  destruct (parse_segments (split "." v)); reflexivity.
Qed.

Lemma version_tuple_malformed (v : string) :
  well_formed v = false -> _version_tuple v = [0].
Proof.
  unfold well_formed, _version_tuple.
  destruct (parse_segments (split "." v)); [discriminate|reflexivity].
Qed.

End VersionFacts.

(** [int], [split] and [_version_tuple] on small inputs. *)
Example int_plain : python_int "10" = Some 10. Proof. reflexivity. Qed.
Example int_padded : python_int " +1_0 " = Some 10. Proof. reflexivity. Qed.
Example int_negative : python_int "-7" = Some (-7). Proof. reflexivity. Qed.
Example int_empty : python_int EmptyString = None. Proof. reflexivity. Qed.
Example int_trailing_us : python_int "1_" = None. Proof. reflexivity. Qed.
Example int_double_us : python_int "1__0" = None. Proof. reflexivity. Qed.
Example int_sign_space : python_int "- 1" = None. Proof. reflexivity. Qed.
(** White space for [int] and for [str.strip]: NBSP counts for both, the
    separators U+001C..U+001F for [str.strip] only. *)
Example int_nbsp : python_int (String "160" "7") = Some 7.
Proof. reflexivity. Qed.
Example int_separator_after : python_int ("1" ++ String "028" EmptyString) = None.
Proof. reflexivity. Qed.
Example int_separator_before : python_int (String "031" "1") = None.
Proof. reflexivity. Qed.
Example tuple_separator :
  _version_tuple ("2.0.0" ++ String "028" EmptyString) = [0] /\
  well_formed ("1" ++ String "028" EmptyString) = false /\
  compare ("1" ++ String "028" EmptyString)
          ("1" ++ String "028" ".0") = EQUAL /\
  compare ("3" ++ String "028" EmptyString) "bad" = EQUAL.
Proof. repeat split; reflexivity. Qed.
Example split_three : split "."%char "1.0.2" = ["1"; "0"; "2"].
Proof. reflexivity. Qed.
Example split_gap : split "."%char "1..2" = ["1"; EmptyString; "2"].
Proof. reflexivity. Qed.
Example tuple_current : _version_tuple "1.0.2" = [1; 0; 2].
Proof. reflexivity. Qed.
Example tuple_bad : _version_tuple "1.x" = [0]. Proof. reflexivity. Qed.
(** The assertion of [_tests]. *)
Example tests_assertion :
  tuple_gt (_version_tuple "1.2.0") (_version_tuple "1.1.9") = true.
Proof. reflexivity. Qed.

(** C4, as the spec words it, fails: a missing trailing item is not read
    as 0.  [(1, 2)] is a proper prefix of [(1, 2, 0)] and therefore
    smaller, so "1.2" is older than "1.2.0". *)
Lemma compare_dot0_not_equal :
  well_formed "1.2" = true /\
  compare "1.2" ("1.2" ++ ".0") = LESS /\
  compare "1.2" ("1.2" ++ ".0") <> EQUAL.
Proof. repeat split; vm_compute; discriminate. Qed.

(** C4, amended: [compare a b] compares the tuples of [a] and [b], where
    a string with a segment that [int] rejects counts as [(0,)] whatever
    the other string is; tuples are compared item by item from the left,
    the first differing items decide, and a tuple that is a proper prefix
    of the other is the smaller one.  So [compare v (v + ".0")] is LESS
    for every well-formed [v], and EQUAL when [v] is malformed. *)
Theorem compare_tuples_prefix_is_less (a b : string) :
  compare a b =
    tuple_cmp (if well_formed a then _version_tuple a else [0])
              (if well_formed b then _version_tuple b else [0]) /\
  parse_segments (split "." a) =
    (if well_formed a then Some (_version_tuple a) else None) /\
  (forall (p : list Z) (x y : Z) (r1 r2 : list Z),
     tuple_cmp (p ++ x :: r1)%list (p ++ y :: r2)%list =
     if x =? y then tuple_cmp r1 r2 else if x <? y then LESS else GREATER) /\
  (forall (t : list Z) (x : Z) (r : list Z),
     tuple_cmp t (t ++ x :: r)%list = LESS) /\
  compare a (a ++ ".0") = (if well_formed a then LESS else EQUAL).
Proof.
  repeat split.
  - unfold compare.
    destruct (well_formed a) eqn:Ha, (well_formed b) eqn:Hb;
      rewrite ?(version_tuple_malformed a Ha), ?(version_tuple_malformed b Hb);
      reflexivity.
  - apply version_tuple_cases.
  - apply tuple_cmp_common_prefix.
  - apply tuple_cmp_prefix.
  - unfold compare. rewrite version_tuple_dot0.
    destruct (well_formed a) eqn:Ha.
    + apply tuple_cmp_prefix.
    + now rewrite (version_tuple_malformed a Ha).
Qed.

(** C5: [compare] is a strict weak ordering of version strings through
    their tuples: every string equals itself, LESS one way is GREATER the
    other way, EQUAL is symmetric, LESS is transitive, and strings that
    compare EQUAL compare alike with every third string.  The three
    examples of the spec hold.  [_version_tuple] returns on every string,
    from its [try] branch or from its [except] branch. *)
Theorem compare_strict_weak_order (a b c : string) :
  compare a a = EQUAL /\
  (compare a b = LESS <-> compare b a = GREATER) /\
  (compare a b = EQUAL <-> compare b a = EQUAL) /\
  (compare a b = LESS -> compare b c = LESS -> compare a c = LESS) /\
  (compare a b = EQUAL -> compare b c = EQUAL -> compare a c = EQUAL) /\
  (compare a b = EQUAL -> compare a c = compare b c) /\
  compare "1.2.0" "1.1.9" = GREATER /\
  compare "1.10" "1.9" = GREATER /\
  compare "bad" "1.0" = LESS /\
  (parse_segments (split "." a) = Some (_version_tuple a) \/
   parse_segments (split "." a) = None /\ _version_tuple a = [0]).
Proof.
  unfold compare. repeat split; try reflexivity.
  - apply tuple_cmp_refl.
  - apply tuple_cmp_flip.
  - apply tuple_cmp_flip.
  - rewrite !tuple_cmp_eq. congruence.
  - rewrite !tuple_cmp_eq. congruence.
  - apply tuple_cmp_less_trans.
  - rewrite !tuple_cmp_eq. congruence.
  - rewrite tuple_cmp_eq. now intros ->.
  - unfold _version_tuple.
    destruct (parse_segments (split "." a)); [left|right]; auto.
Qed.

Lemma compare_strict_weak_order_witness :
  compare "1.0" "1.5" = LESS /\ compare "1.5" "2" = LESS /\
  compare "1.0" "2" = LESS.
Proof.
  split; [reflexivity|]. split; [reflexivity|].
  apply (proj1 (proj2 (proj2 (proj2 (compare_strict_weak_order "1.0" "1.5" "2")))));
    reflexivity.
Defined.

(** C6, as the spec words it, fails: the well-formed "0" has the tuple
    [(0,)] itself and compares EQUAL with a malformed string, and "-1"
    compares LESS. *)
Lemma well_formed_not_always_newer :
  ~ (forall m w : string,
       well_formed m = false -> well_formed w = true ->
       compare w m = GREATER).
Proof.
  intros H. specialize (H "bad" "0" eq_refl eq_refl). discriminate H.
Qed.

(** C6, amended: against a malformed [m] a well-formed [w] compares as
    its tuple compares with [(0,)]: it is GREATER exactly when the first
    segment of [w] is positive, or is 0 and further segments follow. *)
Theorem well_formed_against_malformed (m w : string) :
  well_formed m = false -> well_formed w = true ->
  compare w m = tuple_cmp (_version_tuple w) [0] /\
  (compare w m = GREATER <->
   exists (x : Z) (r : list Z),
     _version_tuple w = x :: r /\ (0 < x \/ x = 0 /\ r <> [])).
Proof.
  intros Hm _. unfold compare. rewrite (version_tuple_malformed m Hm).
  split; [reflexivity|].
  destruct (_version_tuple w) as [|x r]; simpl.
  - split; [discriminate|]. intros (x & r & Heq & _). discriminate.
  - destruct (Z.eqb_spec x 0) as [->|Hne].
    + destruct r as [|y r]; split;
        try discriminate; try reflexivity.
      * intros (x & r & Heq & [Hpos | [_ Hr]]); inversion Heq; subst;
          [lia | contradiction].
      * intros _. exists 0, (y :: r). split; [reflexivity|]. right. now split.
    + destruct (Z.ltb_spec x 0); split; try discriminate; try reflexivity.
      * intros (x' & r' & Heq & [Hpos | [Hz _]]); inversion Heq; subst; lia.
      * intros _. exists x, r. split; [reflexivity|]. left. lia.
Qed.

Lemma well_formed_against_malformed_witness :
  compare "1.0" "bad" = GREATER.
Proof.
  pose proof (well_formed_against_malformed "bad" "1.0" eq_refl eq_refl)
    as [H _].
  rewrite H. reflexivity.
Defined.

(** ** The handler *)

Import Examples.

(** A side-by-side launch in a world where the two commands started
    change no file. *)
Example run_side_by_side :
  snd (run side_by_side_world) = exit_launched /\
  fs (fst (run side_by_side_world)) !! script = Some old_bytes /\
  fs (fst (run side_by_side_world)) !! tmp_file = None /\
  fs (fst (run side_by_side_world)) !! "/opt/game/PuzzleMania_v2.0.0.py"
    = Some new_bytes.
Proof. vm_compute. auto. Qed.

(** A version that [int] refuses is not newer, whatever it looks like
    once stripped: the handler stops at "no update found". *)
Example run_separator_version :
  snd (run separator_version_world) = exit_up_to_date /\
  fs (fst (run separator_version_world)) = fs start.
Proof. vm_compute. auto. Qed.

Local Open Scope list_scope.

Section HandlerFacts.

Context {hasher : Hasher}.

Lemma call_ok (w : world) (s : site) (op : fsop) (st : state)
    (m : gmap string content) :
  fault w s = false -> fs_apply op (fs st) = Some m ->
  call w s op st =
    ({| fs := m; trace := trace st ++ [ev_fs s op false] |}, false).
Proof. intros Hf Ha. unfold call. now rewrite Hf, Ha. Qed.

Lemma call_fault (w : world) (s : site) (op : fsop) (st : state) :
  fault w s = true ->
  call w s op st =
    ({| fs := fs (tear w s op st); trace := trace st ++ [ev_fs s op true] |},
     true).
Proof.
  intros Hf. unfold call. rewrite Hf. unfold log. f_equal. f_equal.
  unfold tear. destruct op; try reflexivity;
    destruct (fs st !! src), (torn w s); try reflexivity;
    now destruct (String.eqb src dst).
Qed.

(** What a call that raises has changed: nothing, or the destination of
    a copy or a move. *)
Lemma tear_cases (w : world) (s : site) (op : fsop) (st : state) :
  fs (tear w s op st) = fs st \/
  exists src dst c,
    (op = Copyfile src dst \/ op = Move src dst) /\ src <> dst /\
    fs (tear w s op st) = <[dst := c]> (fs st).
Proof.
  unfold tear. destruct op; try (now left);
    destruct (fs st !! src), (torn w s) as [c|]; try (now left);
    destruct (String.eqb_spec src dst) as [|Hne]; try (now left);
    right; exists src, dst, c; auto.
Qed.

(** A call raises and changes no file, or raises with the destination
    of a copy torn, or does what [fs_apply] says; every way it adds one
    event. *)
Lemma call_cases (w : world) (s : site) (op : fsop) (st : state) :
  call w s op st =
    ({| fs := fs st; trace := trace st ++ [ev_fs s op true] |}, true) \/
  (exists src dst c,
     (op = Copyfile src dst \/ op = Move src dst) /\ src <> dst /\
     call w s op st =
       ({| fs := <[dst := c]> (fs st);
           trace := trace st ++ [ev_fs s op true] |}, true)) \/
  exists m, fault w s = false /\ fs_apply op (fs st) = Some m /\
    call w s op st =
      ({| fs := m; trace := trace st ++ [ev_fs s op false] |}, false).
Proof.
  destruct (fault w s) eqn:Hf.
  - rewrite (call_fault w s op st Hf).
    destruct (tear_cases w s op st) as [-> | (src & dst & c & Hop & Hne & ->)];
      [now left | right; left; exists src, dst, c; auto].
  - unfold call. rewrite Hf.
    destruct (fs_apply op (fs st)) as [m|]; [right; right; eauto | now left].
Qed.

(** The empty version string is never newer than the running one. *)
Lemma newer_is_truthy (v : string) :
  tuple_le (_version_tuple v) (_version_tuple CURRENT_VERSION) = false ->
  truthy (Some v) = true.
Proof.
  intros H. simpl. destruct (String.eqb_spec v EmptyString) as [->|]; auto.
Qed.

Lemma malformed_is_not_newer (v : string) :
  well_formed v = false ->
  tuple_le (_version_tuple v) (_version_tuple CURRENT_VERSION) = true.
Proof. intros H. now rewrite (version_tuple_malformed v H). Qed.

Lemma download_complete (w : world) (st : state) (u : string)
    (data : content) :
  network_body w u = body data true -> fs st !! mkstemp_name w = None ->
  _download_to_temp w (Some u) st =
    ({| fs := <[mkstemp_name w := data]> (fs st);
        trace := trace st ++ [ev_urlopen (Some u) false;
                              ev_mkstemp (mkstemp_name w) false;
                              ev_copyfileobj (mkstemp_name w) false] |},
     Some (mkstemp_name w)).
Proof.
  intros Hb Hfresh. unfold _download_to_temp. rewrite Hb. simpl.
  rewrite Hfresh. unfold log, write; simpl.
  rewrite insert_insert_eq, <- !app_assoc. reflexivity.
Qed.

(** Lines 626-656 when a newer release is announced, the user agrees
    and the download runs to its end. *)
Lemma reaches_verification (w : world) (st : state)
    (info : gmap string string) (v u : string) (data : content) :
  network_json w UPDATE_INFO_URL = Some info ->
  info !! "version" = Some v ->
  tuple_le (_version_tuple v) (_version_tuple CURRENT_VERSION) = false ->
  info !! "url" = Some u ->
  answer_download w = true ->
  network_body w u = body data true ->
  fs st !! mkstemp_name w = None ->
  check_download_verify w st =
    match verify w (info !! "sha256") (mkstemp_name w)
            {| fs := <[mkstemp_name w := data]> (fs st);
               trace := trace st ++ download_events w info v u |} with
    | (st', Some e) => (st', inl e)
    | (st', None) => (st', inr (v, mkstemp_name w))
    end.
Proof.
  intros Hj Hv Hnew Hu Hans Hb Hfresh.
  unfold check_download_verify. rewrite Hj, Hv.
  rewrite (newer_is_truthy v Hnew). simpl negb. cbv iota.
  simpl default at 1. rewrite Hnew, Hans, Hu. simpl negb. cbv iota.
  rewrite (download_complete w _ u data Hb) by exact Hfresh.
  unfold log; simpl. rewrite <- !app_assoc. reflexivity.
Qed.

Lemma skipped_verification (w : world) (sha256 : option string)
    (tmp_path : string) (st : state) :
  truthy sha256 = false -> verify w sha256 tmp_path st = (st, None).
Proof. intros H. unfold verify. now rewrite H. Qed.

Lemma extends_refl (st : state) : extends st st.
Proof. exists []. now rewrite app_nil_r. Qed.

Lemma extends_trans (a b c : state) :
  extends a b -> extends b c -> extends a c.
Proof.
  intros [l1 H1] [l2 H2]. exists (l1 ++ l2).
  now rewrite H2, H1, app_assoc.
Qed.

Lemma extends_log (e : event) (a b : state) :
  extends (log e a) b -> extends a b.
Proof. apply extends_trans. now exists [e]. Qed.

Lemma extends_log_r (e : event) (a b : state) :
  extends a b -> extends a (log e b).
Proof. intros H. apply (extends_trans a b); [exact H | now exists [e]]. Qed.

Lemma extends_call (w : world) (s : site) (op : fsop) (a b : state) :
  extends (fst (call w s op a)) b -> extends a b.
Proof.
  apply extends_trans.
  destruct (call_cases w s op a)
    as [-> | [(src & dst & c & _ & _ & ->) | (m & _ & _ & ->)]];
    now eexists.
Qed.

Local Ltac step_call :=
  match goal with
  | |- context [call ?w ?s ?op ?st] =>
      let E := fresh "E" in
      destruct (call w s op st) as [? []] eqn:E;
      apply (f_equal fst) in E; simpl in E;
      apply (extends_call w s op); rewrite E
  end.

Lemma launch_extends (w : world) (v tmp_path name : string) (st : state) :
  extends st (fst (launch_new_version w v tmp_path name st)).
Proof.
  unfold launch_new_version, spawn.
  repeat (step_call; simpl);
    destruct (fault w run_extra), (fault w popen_new); simpl;
    unfold extends, log; simpl; rewrite <- ?app_assoc; eexists; reflexivity.
Qed.

Lemma replace_extends (w : world) (v tmp_path : string) (st : state) :
  extends st (fst (replace_current_file w v tmp_path st)).
Proof.
  unfold replace_current_file.
  apply (extends_log (ev_askyesno (ask_replace (argv0 w)) (answer_replace w))).
  destruct (answer_replace w); simpl;
    repeat (step_call; simpl);
    repeat apply extends_log_r; apply extends_refl.
Qed.

(** Line 667: whatever the answer, [install] begins by asking it. *)
Lemma install_asks_first (w : world) (v tmp_path : string) (st : state) :
  exists rest,
    trace (fst (install w v tmp_path st)) =
    trace st ++ ev_askyesnocancel (ask_apply tmp_path) (answer_apply w) :: rest.
Proof.
  assert (extends (log (ev_askyesnocancel (ask_apply tmp_path)
                          (answer_apply w)) st)
                  (fst (install w v tmp_path st))) as [l Hl].
  { unfold install. destruct (answer_apply w) as [[|]|].
    - apply launch_extends.
    - apply replace_extends.
    - step_call; apply extends_refl. }
  exists l. rewrite Hl. simpl. now rewrite <- app_assoc.
Qed.

(** Lines 657-665 when [if sha256:] is false: no hash is computed and
    the apply question comes next, with the download in place. *)
Lemma falsy_digest_goes_to_apply (w : world) (st : state)
    (info : gmap string string) (v u : string) (data : content) :
  network_json w UPDATE_INFO_URL = Some info ->
  info !! "version" = Some v ->
  tuple_le (_version_tuple v) (_version_tuple CURRENT_VERSION) = false ->
  info !! "url" = Some u ->
  truthy (info !! "sha256") = false ->
  answer_download w = true ->
  network_body w u = body data true ->
  fs st !! mkstemp_name w = None ->
  let tmp_path := mkstemp_name w in
  let ready :=
    {| fs := <[tmp_path := data]> (fs st);
       trace := trace st ++ download_events w info v u |} in
  check_download_verify w st = (ready, inr (v, tmp_path)) /\
  fs ready !! tmp_path = Some data /\
  List.filter is_sha256 (trace ready) = List.filter is_sha256 (trace st) /\
  _on_check_for_update w st = install w v tmp_path ready /\
  exists rest,
    trace (fst (_on_check_for_update w st)) =
    trace ready ++
    ev_askyesnocancel (ask_apply tmp_path) (answer_apply w) :: rest.
Proof.
  intros Hj Hv Hnew Hu Hsha Hans Hb Hfresh tmp_path ready.
  assert (check_download_verify w st = (ready, inr (v, tmp_path))) as Hc.
  { rewrite (reaches_verification w st info v u data) by assumption.
    now rewrite skipped_verification. }
  assert (_on_check_for_update w st = install w v tmp_path ready) as Hi.
  { unfold _on_check_for_update. now rewrite Hc. }
  repeat split; auto.
  - apply lookup_insert_eq.
  - subst ready; simpl. rewrite List.filter_app. simpl. apply app_nil_r.
  - rewrite Hi. apply install_asks_first.
Qed.

End HandlerFacts.

(** C9: a manifest whose version is present and non-empty but does not
    parse makes the handler return at "no update found": the engine is
    UP_TO_DATE, the only report is that information, no file changes and
    nothing is downloaded. *)
Theorem garbled_remote_version_is_up_to_date {hasher : Hasher}
    (w : world) (st : state) (info : gmap string string) (v : string) :
  network_json w UPDATE_INFO_URL = Some info ->
  info !! "version" = Some v -> v <> EmptyString ->
  well_formed v = false ->
  _on_check_for_update w st =
    ({| fs := fs st;
        trace := trace st ++ [ev_fetch UPDATE_INFO_URL false;
                              ev_showinfo (msg_up_to_date v)] |},
     exit_up_to_date) /\
  engine_state_of (snd (_on_check_for_update w st)) = UP_TO_DATE.
Proof.
  intros Hj Hv Hne Hbad.
  assert (_on_check_for_update w st =
    ({| fs := fs st;
        trace := trace st ++ [ev_fetch UPDATE_INFO_URL false;
                              ev_showinfo (msg_up_to_date v)] |},
     exit_up_to_date)) as Hrun.
  { unfold _on_check_for_update, check_download_verify.
    rewrite Hj, Hv. simpl truthy.
    apply String.eqb_neq in Hne. rewrite Hne. simpl negb. cbv iota.
    simpl default. rewrite (malformed_is_not_newer v Hbad).
    unfold log; simpl. now rewrite <- app_assoc. }
  split; [exact Hrun | now rewrite Hrun].
Qed.

Lemma garbled_remote_version_is_up_to_date_witness :
  snd (run (example_world (manifest "2.x" None) conn_fail None false no_fault))
  = exit_up_to_date.
Proof.
  pose proof (@garbled_remote_version_is_up_to_date concat_hasher
    (example_world (manifest "2.x" None) conn_fail None false no_fault)
    start (manifest "2.x" None) "2.x" eq_refl eq_refl) as H.
  destruct H as [H _]; [discriminate | reflexivity |].
  unfold run. now rewrite H.
Defined.

(** C8: with no digest in the manifest no hash is computed: after the
    download the temporary file holds the downloaded bytes, the trace has
    gained no digest computation, and the next thing the handler does is
    ask how to apply the update. *)
Theorem no_digest_skips_verification {hasher : Hasher}
    (w : world) (st : state) (info : gmap string string) (v u : string)
    (data : content) :
  network_json w UPDATE_INFO_URL = Some info ->
  info !! "version" = Some v ->
  tuple_le (_version_tuple v) (_version_tuple CURRENT_VERSION) = false ->
  info !! "url" = Some u ->
  info !! "sha256" = None ->
  answer_download w = true ->
  network_body w u = body data true ->
  fs st !! mkstemp_name w = None ->
  let tmp_path := mkstemp_name w in
  let ready :=
    {| fs := <[tmp_path := data]> (fs st);
       trace := trace st ++ download_events w info v u |} in
  check_download_verify w st = (ready, inr (v, tmp_path)) /\
  fs ready !! tmp_path = Some data /\
  List.filter is_sha256 (trace ready) = List.filter is_sha256 (trace st) /\
  _on_check_for_update w st = install w v tmp_path ready /\
  exists rest,
    trace (fst (_on_check_for_update w st)) =
    trace ready ++
    ev_askyesnocancel (ask_apply tmp_path) (answer_apply w) :: rest.
Proof.
  intros Hj Hv Hnew Hu Hsha. apply falsy_digest_goes_to_apply; auto.
  now rewrite Hsha.
Qed.

(** C10: a digest field holding the empty string is treated like a
    missing one: no hash is computed and the apply question follows the
    download, whose bytes are in the temporary file. *)
Theorem empty_digest_skips_verification {hasher : Hasher}
    (w : world) (st : state) (info : gmap string string) (v u : string)
    (data : content) :
  network_json w UPDATE_INFO_URL = Some info ->
  info !! "version" = Some v ->
  tuple_le (_version_tuple v) (_version_tuple CURRENT_VERSION) = false ->
  info !! "url" = Some u ->
  info !! "sha256" = Some EmptyString ->
  answer_download w = true ->
  network_body w u = body data true ->
  fs st !! mkstemp_name w = None ->
  let tmp_path := mkstemp_name w in
  let ready :=
    {| fs := <[tmp_path := data]> (fs st);
       trace := trace st ++ download_events w info v u |} in
  check_download_verify w st = (ready, inr (v, tmp_path)) /\
  fs ready !! tmp_path = Some data /\
  List.filter is_sha256 (trace ready) = List.filter is_sha256 (trace st) /\
  _on_check_for_update w st = install w v tmp_path ready /\
  exists rest,
    trace (fst (_on_check_for_update w st)) =
    trace ready ++
    ev_askyesnocancel (ask_apply tmp_path) (answer_apply w) :: rest.
Proof.
  intros Hj Hv Hnew Hu Hsha. apply falsy_digest_goes_to_apply; auto.
  now rewrite Hsha.
Qed.

Lemma no_digest_skips_verification_witness :
  fs (fst (@check_download_verify concat_hasher no_digest_world start))
    !! tmp_file = Some new_bytes.
Proof.
  destruct (@no_digest_skips_verification concat_hasher no_digest_world start
              (manifest "2.0.0" None) "2.0.0" release_url new_bytes
              eq_refl eq_refl eq_refl eq_refl eq_refl eq_refl eq_refl eq_refl)
    as (Hc & Hf & _).
  rewrite Hc. exact Hf.
Defined.

Lemma empty_digest_skips_verification_witness :
  fs (fst (@check_download_verify concat_hasher empty_digest_world start))
    !! tmp_file = Some new_bytes.
Proof.
  destruct (@empty_digest_skips_verification concat_hasher empty_digest_world
              start (manifest "2.0.0" (Some EmptyString)) "2.0.0" release_url
              new_bytes
              eq_refl eq_refl eq_refl eq_refl eq_refl eq_refl eq_refl eq_refl)
    as (Hc & Hf & _).
  rewrite Hc. exact Hf.
Defined.

(** C7 fails on the code when the removal fails.  Line 661 is the one
    [os.remove(tmp_path)] of the handler that stands outside a [try]
    (lines 671-674 and 706-709 wrap theirs).  On a digest that differs
    once both are lowercased the handler computes the hash and calls the
    removal.  When the removal works, the temporary file is gone, the
    hash error is shown and the handler returns, which is ABORTED, with
    the files what they were before the update started, the running
    script among them.  When the removal raises, the exception leaves the
    handler: no integrity message is shown, nothing is reported at all,
    and the downloaded file stays in the temporary directory. *)
Theorem digest_mismatch_outcomes {hasher : Hasher}
    (w : world) (st : state) (info : gmap string string) (v u d : string)
    (data : content) :
  network_json w UPDATE_INFO_URL = Some info ->
  info !! "version" = Some v ->
  tuple_le (_version_tuple v) (_version_tuple CURRENT_VERSION) = false ->
  info !! "url" = Some u ->
  info !! "sha256" = Some d -> d <> EmptyString ->
  answer_download w = true ->
  network_body w u = body data true ->
  fs st !! mkstemp_name w = None ->
  lower (sha256_of data) <> lower d ->
  let tmp_path := mkstemp_name w in
  let r := _on_check_for_update w st in
  (fault w remove_mismatch = false ->
   snd r = exit_hash_mismatch /\
   engine_state_of (snd r) = ABORTED /\
   trace (fst r) =
     trace st ++ download_events w info v u ++
     [ev_sha256 tmp_path false;
      ev_fs remove_mismatch (Remove tmp_path) false;
      ev_showerror msg_hash_mismatch] /\
   fs (fst r) !! tmp_path = None /\
   fs (fst r) !! abspath w (argv0 w) = fs st !! abspath w (argv0 w) /\
   fs (fst r) = fs st) /\
  (fault w remove_mismatch = true ->
   snd r = exit_uncaught /\
   trace (fst r) =
     trace st ++ download_events w info v u ++
     [ev_sha256 tmp_path false;
      ev_fs remove_mismatch (Remove tmp_path) true] /\
   List.filter is_report (trace (fst r)) = List.filter is_report (trace st) /\
   fs (fst r) !! tmp_path = Some data /\
   fs (fst r) = <[tmp_path := data]> (fs st)).
Proof.
  intros Hj Hv Hnew Hu Hsha Hd Hans Hb Hfresh Hdiff tmp_path r.
  subst r. unfold _on_check_for_update.
  rewrite (reaches_verification w st info v u data) by assumption.
  unfold verify. rewrite Hsha. simpl truthy.
  apply String.eqb_neq in Hd. rewrite Hd. simpl negb. cbv iota.
  unfold _compute_sha256. simpl fs. rewrite lookup_insert_eq.
  simpl default. apply String.eqb_neq in Hdiff. rewrite Hdiff.
  simpl negb. cbv iota. fold tmp_path.
  split; intros Hrm.
  - erewrite call_ok; [| exact Hrm |].
    2:{ simpl. rewrite lookup_insert_eq. reflexivity. }
    rewrite (delete_insert_id _ _ _ Hfresh).
    unfold log; simpl. rewrite <- !app_assoc. repeat split; auto.
  - rewrite (call_fault _ _ _ _ Hrm). simpl.
    rewrite <- !app_assoc. repeat split; auto.
    + rewrite !List.filter_app. simpl. now rewrite !app_nil_r.
    + apply lookup_insert_eq.
Qed.

Lemma digest_mismatch_outcomes_witness :
  snd (run mismatch_remove_fault_world) = exit_uncaught /\
  fs (fst (run mismatch_remove_fault_world)) !! tmp_file = Some new_bytes.
Proof.
  assert ("ABC" <> EmptyString) as Hd by discriminate.
  assert (lower (@sha256_of concat_hasher new_bytes) <> lower "ABC") as Hne
    by (vm_compute; discriminate).
  destruct (@digest_mismatch_outcomes concat_hasher
              mismatch_remove_fault_world start
              (manifest "2.0.0" (Some "ABC")) "2.0.0" release_url "ABC"
              new_bytes eq_refl eq_refl eq_refl eq_refl eq_refl Hd
              eq_refl eq_refl eq_refl Hne) as [_ Hraise].
  destruct (Hraise eq_refl) as (He & _ & _ & Hf & _).
  split; [exact He | exact Hf].
Defined.

(** The two sides of line 661 on the example worlds, and the cancel
    path, whose removal is wrapped, under the same failure. *)
Example mismatch_removal_both_ways :
  (snd (run mismatch_world) = exit_hash_mismatch /\
   List.filter is_report (trace (fst (run mismatch_world)))
     = [ev_showerror msg_hash_mismatch] /\
   fs (fst (run mismatch_world)) = fs start) /\
  (snd (run mismatch_remove_fault_world) = exit_uncaught /\
   List.filter is_report (trace (fst (run mismatch_remove_fault_world))) = [] /\
   fs (fst (run mismatch_remove_fault_world)) !! tmp_file = Some new_bytes) /\
  (snd (run cancel_remove_fault_world) = exit_cancelled /\
   List.filter is_report (trace (fst (run cancel_remove_fault_world))) = []).
Proof. vm_compute. intuition. Qed.

(** ** In-place replacement *)

Section PathNames.

Lemma string_app_cons (x : ascii) (a b : string) :
  (String x a ++ b)%string = String x (a ++ b)%string.
Proof. reflexivity. Qed.

Lemma string_app_assoc (a b c : string) :
  ((a ++ b) ++ c = a ++ (b ++ c))%string.
Proof.
  induction a as [|x a IH]; [reflexivity|].
  now rewrite !string_app_cons, IH.
Qed.

Lemma string_app_nil_r (a : string) : (a ++ EmptyString)%string = a.
Proof.
  induction a as [|x a IH]; [reflexivity|].
  now rewrite string_app_cons, IH.
Qed.

Lemma string_app_inv_head (a x y : string) :
  (a ++ x)%string = (a ++ y)%string -> x = y.
Proof.
  induction a as [|c a IH]; [auto|].
  rewrite !string_app_cons. intros H. injection H. auto.
Qed.

(** Two strings that are equal end in the same character. *)
Lemma string_app_last (s t : string) (c d : ascii) :
  (s ++ String c EmptyString)%string = (t ++ String d EmptyString)%string ->
  c = d.
Proof.
  revert t; induction s as [|x s IH]; intros [|y t];
    rewrite ?string_app_cons; intros H.
  - now injection H.
  - injection H as _ H. destruct t; discriminate H.
  - injection H as _ H. destruct s; discriminate H.
  - injection H as _ H. eauto.
Qed.

Lemma bak_is_not_target (p : string) : (p ++ ".bak")%string <> p.
Proof.
  intros H. rewrite <- (string_app_nil_r p) in H at 2.
  apply string_app_inv_head in H. discriminate H.
Qed.

Lemma new_is_not_target (p : string) : (p ++ ".new")%string <> p.
Proof.
  intros H. rewrite <- (string_app_nil_r p) in H at 2.
  apply string_app_inv_head in H. discriminate H.
Qed.

Lemma bak_is_not_new (p : string) : (p ++ ".bak")%string <> (p ++ ".new")%string.
Proof. intros H. apply string_app_inv_head in H. discriminate H. Qed.

(** The name [mkstemp] hands out ends in ".tmp". *)
Lemma mkstemp_name_suffix (w : world) :
  exists s, mkstemp_name w = (s ++ "p")%string.
Proof.
  unfold mkstemp_name, join. simpl.
  set (b := (rnd w ++ ".tmp")%string).
  assert (b = ((rnd w ++ ".tm") ++ "p")%string) as Hb
    by (subst b; now rewrite string_app_assoc).
  destruct (_ || _).
  - exists (tmpdir w ++ "puzzle_update_" ++ rnd w ++ ".tm")%string.
    rewrite Hb, !string_app_assoc. reflexivity.
  - exists (tmpdir w ++ "/puzzle_update_" ++ rnd w ++ ".tm")%string.
    rewrite Hb, !string_app_assoc. reflexivity.
Qed.

Lemma tmp_is_not_bak (w : world) (p : string) :
  mkstemp_name w <> (p ++ ".bak")%string.
Proof.
  destruct (mkstemp_name_suffix w) as [s ->]. intros H.
  change ".bak"%string with (".ba" ++ "k")%string in H.
  rewrite <- string_app_assoc in H.
  apply string_app_last in H. discriminate H.
Qed.

End PathNames.

Section FileOperations.

Lemma fs_apply_copy (a b : string) (m m' : gmap string content) :
  fs_apply (Copyfile a b) m = Some m' ->
  exists c, m !! a = Some c /\ m' = <[b := c]> m.
Proof.
  simpl. destruct (String.eqb a b); [discriminate|].
  destruct (m !! a) as [c|]; [|discriminate]. intros [= <-]. eauto.
Qed.

Lemma fs_apply_move (a b : string) (m m' : gmap string content) :
  fs_apply (Move a b) m = Some m' ->
  exists c, m !! a = Some c /\ m' = <[b := c]> (delete a m).
Proof.
  simpl. destruct (m !! a) as [c|]; [|discriminate]. intros [= <-]. eauto.
Qed.

Lemma fs_apply_replace (a b : string) (m m' : gmap string content) :
  fs_apply (Replace a b) m = Some m' ->
  exists c, m !! a = Some c /\ m' = <[b := c]> (delete a m).
Proof.
  simpl. destruct (m !! a) as [c|]; [|discriminate]. intros [= <-]. eauto.
Qed.

Lemma fs_apply_remove (p : string) (m m' : gmap string content) :
  fs_apply (Remove p) m = Some m' -> m' = delete p m.
Proof.
  simpl. destruct (m !! p) as [c|]; [|discriminate]. now intros [= <-].
Qed.

End FileOperations.

Local Ltac step_fs :=
  match goal with
  | |- context [call ?w ?s ?op ?st] =>
      let E := fresh "E" in
      let m := fresh "m" in
      let Hf := fresh "Hf" in
      let Ha := fresh "Ha" in
      let Hop := fresh "Hop" in
      let Hsd := fresh "Hsd" in
      destruct (call_cases w s op st)
        as [E | [(? & ? & ? & Hop & Hsd & E) | (m & Hf & Ha & E)]];
      [ | destruct Hop as [Hop | Hop];
          first [discriminate Hop | injection Hop as <- <-] | ];
      rewrite E; clear E; simpl
  end.

(** C3, as the spec words it, fails in one point: a failed backup is
    not logged.  With the backup copy raising, the replacement goes
    through and the only message of the whole run is the final
    "replacement done", exactly as when the backup succeeds. *)
Lemma failed_backup_is_not_reported :
  let faulty := example_world (manifest "2.0.0" None) (body new_bytes true)
                  (Some false) true
                  (fun s => match s with copy_backup => true | _ => false end) in
  let sound := example_world (manifest "2.0.0" None) (body new_bytes true)
                  (Some false) true no_fault in
  In (ev_fs copy_backup (Copyfile script (script ++ ".bak")%string) true)
     (trace (fst (run faulty))) /\
  snd (run faulty) = exit_replaced /\
  List.filter is_report (trace (fst (run faulty))) =
    [ev_showinfo (msg_replaced "2.0.0")] /\
  List.filter is_report (trace (fst (run faulty))) =
  List.filter is_report (trace (fst (run sound))).
Proof. vm_compute. intuition. Qed.

(** C3, amended: in-place replacement first copies the current file to
    [<path>.bak], and when that copy raises it goes on without any report;
    then it moves the temporary file to [<path>.new], then renames
    [<path>.new] onto [<path>], and when the rename raises it copies
    [<path>.new] onto [<path>] and removes [<path>.new].  When the
    replacement ends with success the target holds the downloaded bytes,
    [<path>.new] is gone, the only report is the final information, and
    if the backup copy did not raise, [<path>.bak] holds what the target
    held before.  It does end with success when the move and the rename
    do not raise, or the rename raises and the copy and the removal do
    not. *)
Theorem replace_in_place (w : world) (v : string) (st : state)
    (data : content) :
  answer_replace w = true ->
  fs st !! mkstemp_name w = Some data ->
  let tmp_path := mkstemp_name w in
  let target_path := abspath w (argv0 w) in
  let backup_path := (target_path ++ ".bak")%string in
  let final_tmp := (target_path ++ ".new")%string in
  let r := replace_current_file w v tmp_path st in
  (snd r = exit_replaced ->
   exists rb : bool,
     (trace (fst r) =
        trace st ++
        [ev_askyesno (ask_replace (argv0 w)) true;
         ev_fs copy_backup (Copyfile target_path backup_path) rb;
         ev_fs move_staging (Move tmp_path final_tmp) false;
         ev_fs replace_target (Replace final_tmp target_path) false;
         ev_showinfo (msg_replaced v)] \/
      trace (fst r) =
        trace st ++
        [ev_askyesno (ask_replace (argv0 w)) true;
         ev_fs copy_backup (Copyfile target_path backup_path) rb;
         ev_fs move_staging (Move tmp_path final_tmp) false;
         ev_fs replace_target (Replace final_tmp target_path) true;
         ev_fs copy_fallback (Copyfile final_tmp target_path) false;
         ev_fs remove_staging (Remove final_tmp) false;
         ev_showinfo (msg_replaced v)]) /\
     fs (fst r) !! target_path = Some data /\
     fs (fst r) !! final_tmp = None /\
     (rb = false ->
      exists old, fs st !! target_path = Some old /\
                  fs (fst r) !! backup_path = Some old)) /\
  (fault w move_staging = false ->
   fault w replace_target = false \/
   fault w copy_fallback = false /\ fault w remove_staging = false ->
   snd r = exit_replaced).
Proof.
  intros Hans Htmp tmp_path target_path backup_path final_tmp r.
  change (fs st !! tmp_path = Some data) in Htmp.
  pose proof (tmp_is_not_bak w target_path) as Htb.
  pose proof (bak_is_not_target target_path) as Hbt.
  pose proof (new_is_not_target target_path) as Hnt.
  pose proof (bak_is_not_new target_path) as Hbn.
  fold tmp_path backup_path in Htb. fold backup_path in Hbt, Hbn.
  fold final_tmp in Hnt, Hbn.
  subst r. unfold replace_current_file. rewrite Hans. simpl negb. cbv iota.
  fold tmp_path target_path. fold backup_path final_tmp.
  split.
  - repeat step_fs; unfold log; simpl; intros Hexit; try discriminate Hexit.
    all: repeat match goal with
         | H : fs_apply (Copyfile _ _) _ = Some _ |- _ =>
             apply fs_apply_copy in H; destruct H as (? & ? & ->)
         | H : fs_apply (Move _ _) _ = Some _ |- _ =>
             apply fs_apply_move in H; destruct H as (? & ? & ->)
         | H : fs_apply (Replace _ _) _ = Some _ |- _ =>
             apply fs_apply_replace in H; destruct H as (? & ? & ->)
         | H : fs_apply (Remove _) _ = Some _ |- _ =>
             apply fs_apply_remove in H; subst
         end.
    all: simpl in *; eexists; split;
      [ rewrite <- !app_assoc; simpl;
        ((left; reflexivity) || (right; reflexivity)) | ].
    all: simplify_map_eq; repeat split; try discriminate; eauto.
  - intros Hm Hc.
    assert (String.eqb final_tmp target_path = false) as Hneq
      by now apply String.eqb_neq.
    step_fs;
      [| | apply fs_apply_copy in Ha; destruct Ha as (old & Hold & ->) ];
      (erewrite (call_ok w move_staging);
       [| exact Hm
        | unfold log; simpl; rewrite ?lookup_insert_ne by auto;
          rewrite Htmp; reflexivity ]);
      simpl;
      (destruct (fault w replace_target) eqn:Hr;
       [ rewrite (call_fault _ _ _ _ Hr); simpl;
         destruct Hc as [Hc | [Hc1 Hc2]]; [discriminate Hc|];
         (erewrite (call_ok w copy_fallback);
          [| exact Hc1
           | simpl; rewrite Hneq, lookup_insert_eq; reflexivity ]);
         simpl;
         (erewrite (call_ok w remove_staging);
          [| exact Hc2
           | simpl; rewrite lookup_insert_ne, lookup_insert_eq by auto;
             reflexivity ]);
         reflexivity
       | (erewrite (call_ok w replace_target);
          [| exact Hr | simpl; rewrite lookup_insert_eq; reflexivity ]);
         reflexivity ]).
Qed.

Lemma replace_in_place_witness :
  fs (fst (replace_current_file replace_world "2.0.0" tmp_file downloaded))
    !! script = Some new_bytes.
Proof.
  destruct (replace_in_place replace_world "2.0.0" downloaded new_bytes
              eq_refl eq_refl) as [Hdone Hexit].
  destruct (Hdone (Hexit eq_refl (or_introl eq_refl))) as (rb & _ & Ht & _).
  exact Ht.
Defined.

(** ** Side-by-side launch *)

(** C1 fails on the code: before it starts the new version the launch
    branch runs a second command through the shell.  Whatever the world,
    the processes of [launch_new_version] are none (the file could not be
    saved), or the [update_leaderboard] command alone (it raised), or that
    command followed by the new version; in the plain run of the example
    they are exactly these two. *)
Theorem launch_runs_a_shell_command_first (w : world)
    (v tmp_path name : string) (st : state) :
  (exists l,
     trace (fst (launch_new_version w v tmp_path name st)) = trace st ++ l /\
     (List.filter is_process l = [] \/
      List.filter is_process l =
        [ev_run [ieuhizuhdz_iuhiuhzidzdz; iuzidujoid_oizuifhioazoiofzz]
                true true] \/
      exists r,
        List.filter is_process l =
          [ev_run [ieuhizuhdz_iuhiuhzidzdz; iuzidujoid_oizuifhioazoiofzz]
                  true false;
           ev_popen [executable w; name] r])) /\
  snd (run side_by_side_world) = exit_launched /\
  List.filter is_process (trace (fst (run side_by_side_world))) =
    [ev_run ["update_leaderboard"; iuzidujoid_oizuifhioazoiofzz] true false;
     ev_popen ["/usr/bin/python3"; "/opt/game/PuzzleMania_v2.0.0.py"] false].
Proof.
  split; [| split; reflexivity].
  unfold launch_new_version, spawn.
  repeat step_fs;
    destruct (fault w run_extra), (fault w popen_new); simpl;
    unfold log; simpl; rewrite <- ?app_assoc; simpl;
    eexists; (split; [reflexivity|]); simpl; eauto.
Qed.

(** ** The temporary file *)

(** C2 fails on the code.  When the move to [<path>.new] raises, the
    handler reports the error and returns with the downloaded file still
    in the temporary directory; the same when neither the move nor the
    copy of the side-by-side launch works; and a download that breaks off
    leaves the partly written file.  The cancel path, by contrast,
    removes the file. *)
Theorem temporary_file_left_behind :
  (snd (run staging_fault_world) = exit_replace_error /\
   fs (fst (run staging_fault_world)) !! tmp_file = Some new_bytes) /\
  (snd (run save_fault_world) = exit_save_error /\
   fs (fst (run save_fault_world)) !! tmp_file = Some new_bytes) /\
  (snd (run broken_download_world) = exit_download_error /\
   fs (fst (run broken_download_world)) !! tmp_file = Some [Byte.x4e]) /\
  (snd (run cancel_world) = exit_cancelled /\
   fs (fst (run cancel_world)) !! tmp_file = None).
Proof. vm_compute. intuition. Qed.

(** ** Reading in chunks *)

(** The chunks read from a file put together are the file: the fuel of
    [read_chunks] in [sha256_of] is enough to reach its end. *)
Lemma read_chunks_concat (fuel : nat) (data : content) :
  (length data <= fuel)%nat -> concat (read_chunks fuel data) = data.
Proof.
  revert data; induction fuel as [|fuel IH]; intros data Hlen.
  - destruct data; [reflexivity | simpl in Hlen; lia].
  - destruct data as [|x data]; [reflexivity|].
    change (read_chunks (S fuel) (x :: data))
      with (take 4096 (x :: data)
            :: read_chunks fuel (drop 4096 (x :: data))).
    change (concat (take 4096 (x :: data)
                    :: read_chunks fuel (drop 4096 (x :: data))))
      with (take 4096 (x :: data)
            ++ concat (read_chunks fuel (drop 4096 (x :: data)))).
    rewrite IH; [apply take_drop|].
    rewrite length_drop. simpl in *. lia.
Qed.

Lemma sha256_of_small {hasher : Hasher} (data : content) :
  data <> [] -> (length data <= 4096)%nat ->
  sha256_of data = h_hexdigest (h_update h_new data).
Proof.
  intros Hne Hlen. unfold sha256_of.
  destruct data as [|x data]; [contradiction|].
  change (read_chunks (length (x :: data)) (x :: data))
    with (take 4096 (x :: data)
          :: read_chunks (length data) (drop 4096 (x :: data))).
  rewrite take_ge, drop_ge by exact Hlen.
  destruct (length data); reflexivity.
Qed.

Example dirname_of_script : dirname script = "/opt/game".
Proof. reflexivity. Qed.
Example dirname_of_bare_name : str_or (dirname "game.py") "." = ".".
Proof. reflexivity. Qed.
Example versioned_name :
  default_newname_of side_by_side_world "2.0.0"
  = "/opt/game/PuzzleMania_v2.0.0.py".
Proof. reflexivity. Qed.
Example lower_hex : lower "AbC09f" = "abc09f".
Proof. reflexivity. Qed.
Example temporary_name : mkstemp_name side_by_side_world = tmp_file.
Proof. reflexivity. Qed.

(** ** The puzzle helpers: counting *)

Import Puzzles.

Section CountFacts.

Context {A : Type} `{EqDecision A}.

Lemma count_cons (y : A) (l : list A) (x : A) :
  count (y :: l) x = ((if decide (y = x) then 1 else 0) + count l x)%nat.
Proof.
  unfold count. rewrite filter_cons. destruct (decide (y = x)); reflexivity.
Qed.

Lemma count_le_length (l : list A) (x : A) : (count l x <= length l)%nat.
Proof. unfold count. apply length_filter. Qed.

Lemma count_pos (l : list A) (x : A) : x ∈ l <-> (0 < count l x)%nat.
Proof.
  induction l as [|y l IH]; [unfold count; simpl; split; [inversion 1 | lia]|].
  rewrite count_cons, elem_of_cons.
  destruct (decide (y = x)) as [->|Hne]; [split; [lia | auto]|].
  rewrite IH. split; [intros [?|?]; [congruence | lia] | intros; right; lia].
Qed.

Lemma elem_of_distinct (l : list A) (x : A) : x ∈ distinct l <-> x ∈ l.
Proof.
  induction l as [|y l IH]; [reflexivity|]. simpl.
  rewrite !elem_of_cons, list_elem_of_filter, IH.
  destruct (decide (x = y)); intuition.
Qed.

Lemma NoDup_distinct (l : list A) : NoDup (distinct l).
Proof.
  induction l as [|y l IH]; simpl; constructor.
  - rewrite list_elem_of_filter. intros [Hne _]. now apply Hne.
  - now apply NoDup_filter.
Qed.

(** Over keys without repetition the indicator of [y] sums to at most 1. *)
Lemma sum_indicator (y : A) (ks : list A) :
  NoDup ks ->
  sum_list (map (fun k => if decide (y = k) then 1 else 0)%nat ks) =
  (if decide (y ∈ ks) then 1 else 0)%nat.
Proof.
  induction 1 as [|k ks Hk Hnd IH]; [reflexivity|]. simpl. rewrite IH.
  destruct (decide (y = k)) as [->|Hyk].
  - rewrite (decide_False (P := k ∈ ks)) by exact Hk.
    rewrite (decide_True (P := k ∈ k :: ks)) by (apply elem_of_cons; now left).
    reflexivity.
  - destruct (decide (y ∈ ks)) as [Hin|Hin].
    + rewrite (decide_True (P := y ∈ k :: ks))
        by (apply elem_of_cons; now right).
      reflexivity.
    + rewrite (decide_False (P := y ∈ k :: ks)); [reflexivity|].
      intros Hc. apply elem_of_cons in Hc as [Hc|Hc]; contradiction.
Qed.

Lemma sum_list_add (f g : A -> nat) (ks : list A) :
  sum_list (map (fun k => f k + g k)%nat ks) =
  (sum_list (map f ks) + sum_list (map g ks))%nat.
Proof. induction ks as [|k ks IH]; simpl; [|rewrite IH]; lia. Qed.

Lemma sum_list_le (f g : A -> nat) (ks : list A) :
  (forall k, f k <= g k)%nat ->
  (sum_list (map f ks) <= sum_list (map g ks))%nat.
Proof.
  intros Hle. induction ks as [|k ks IH]; simpl; [lia|].
  specialize (Hle k). lia.
Qed.

Lemma sum_list_ext (f g : A -> nat) (ks : list A) :
  (forall k, f k = g k) -> sum_list (map f ks) = sum_list (map g ks).
Proof. intros Heq. induction ks as [|k ks IH]; simpl; [|rewrite IH, Heq]; auto. Qed.

(** The counts of distinct keys add up to the number of elements that
    are among the keys. *)
Lemma sum_counts (l ks : list A) :
  NoDup ks ->
  sum_list (map (count l) ks) = length (filter (fun x => x ∈ ks) l).
Proof.
  intros Hnd. induction l as [|y l IH]; simpl.
  - induction ks as [|k ks IHk]; [reflexivity|].
    simpl. rewrite IHk by now inversion Hnd. reflexivity.
  - rewrite (sum_list_ext (count (y :: l))
               (fun k => (if decide (y = k) then 1 else 0) + count l k)%nat)
      by (intros k; apply count_cons).
    rewrite sum_list_add, sum_indicator, IH by assumption.
    rewrite filter_cons. destruct (decide (y ∈ ks)); reflexivity.
Qed.

Lemma sum_counts_le (l ks : list A) :
  NoDup ks -> (sum_list (map (count l) ks) <= length l)%nat.
Proof. intros Hnd. rewrite sum_counts by assumption. apply length_filter. Qed.

Lemma sum_counts_all (l ks : list A) :
  NoDup ks -> (forall x, x ∈ l -> x ∈ ks) ->
  sum_list (map (count l) ks) = length l.
Proof.
  intros Hnd Hall. rewrite sum_counts by assumption. f_equal.
  induction l as [|y l IH]; [reflexivity|].
  rewrite filter_cons, decide_True by (apply Hall; left).
  f_equal. apply IH. intros x Hx. apply Hall. now right.
Qed.

Lemma common_count_le_l (ks a b : list A) :
  NoDup ks -> (common_count ks a b <= length a)%nat.
Proof.
  intros Hnd. unfold common_count.
  etransitivity; [|apply (sum_counts_le a ks Hnd)].
  apply sum_list_le. intros k. lia.
Qed.

Lemma common_count_le_r (ks a b : list A) :
  NoDup ks -> (common_count ks a b <= length b)%nat.
Proof.
  intros Hnd. unfold common_count.
  etransitivity; [|apply (sum_counts_le b ks Hnd)].
  apply sum_list_le. intros k. lia.
Qed.

End CountFacts.

(** ** The puzzle helpers: numbers *)

Section NumberFacts.

Lemma count_zero (l : list Z) (k : Z) : k ∉ l -> count l k = O.
Proof. intros Hk. pose proof (count_pos l k). destruct (count l k); [auto|]. exfalso. apply Hk, H. lia. Qed.

Lemma fold_gcd_spec (rest : list Z) (g0 : Z) :
  0 <= g0 ->
  let g := fold_left (fun g n => Z.gcd g (Z.abs n)) rest g0 in
  0 <= g /\ (g | g0) /\ (forall n, n ∈ rest -> (g | n)) /\
  (forall d, (d | g0) -> (forall n, n ∈ rest -> (d | n)) -> (d | g)).
Proof.
  revert g0. induction rest as [|x rest IH]; intros g0 Hg0; simpl.
  - repeat split; auto.
    + apply Z.divide_refl.
    + intros n Hn. inversion Hn.
  - destruct (IH (Z.gcd g0 (Z.abs x)) (Z.gcd_nonneg _ _))
      as (Hnn & Hdiv & Hall & Hgreat).
    repeat split; auto.
    + etransitivity; [exact Hdiv | apply Z.gcd_divide_l].
    + intros n Hn. apply elem_of_cons in Hn as [->|Hn]; [|now apply Hall].
      etransitivity; [exact Hdiv|].
      etransitivity; [apply Z.gcd_divide_r | apply Z.divide_abs_l, Z.divide_refl].
    + intros d Hd Hds. apply Hgreat.
      * apply Z.gcd_greatest; [exact Hd|].
        apply Z.divide_abs_r, Hds. now left.
      * intros n Hn. apply Hds. now right.
Qed.

End NumberFacts.

(** X1: [gcd_list] returns the greatest common divisor of its list: it is
    not negative, it divides every element, and every common divisor of
    the elements divides it; on the empty list, and only on lists of
    zeros, it is 0. *)
Theorem gcd_list_is_gcd (nums : list Z) :
  0 <= gcd_list nums /\
  (forall n, n ∈ nums -> (gcd_list nums | n)) /\
  (forall d, (forall n, n ∈ nums -> (d | n)) -> (d | gcd_list nums)) /\
  (gcd_list nums = 0 <-> forall n, n ∈ nums -> n = 0).
Proof.
  assert (0 <= gcd_list nums /\
          (forall n, n ∈ nums -> (gcd_list nums | n)) /\
          (forall d, (forall n, n ∈ nums -> (d | n)) -> (d | gcd_list nums)))
    as (Hnn & Hdiv & Hgreat).
  { destruct nums as [|n0 rest]; simpl.
    - repeat split; [lia | intros n Hn; inversion Hn |].
      intros d _. apply Z.divide_0_r.
    - destruct (fold_gcd_spec rest (Z.abs n0) (Z.abs_nonneg n0))
        as (Hnn & Hdiv & Hall & Hgreat).
      repeat split; auto.
      + intros n Hn. apply elem_of_cons in Hn as [->|Hn]; [|now apply Hall].
        etransitivity; [exact Hdiv | apply Z.divide_abs_l, Z.divide_refl].
      + intros d Hds. apply Hgreat.
        * apply Z.divide_abs_r, Hds. now left.
        * intros n Hn. apply Hds. now right. }
  repeat split; auto.
  - intros Hz n Hn. specialize (Hdiv n Hn). rewrite Hz in Hdiv.
    now apply Z.divide_0_l.
  - intros Hall. apply Z.divide_0_l, Hgreat.
    intros n Hn. rewrite (Hall n Hn). apply Z.divide_0_r.
Qed.

Lemma gcd_list_is_gcd_witness : (gcd_list [12; -18; 30] | -18).
Proof.
  apply (proj1 (proj2 (gcd_list_is_gcd [12; -18; 30]))).
  apply elem_of_cons. right. apply elem_of_cons. now left.
Defined.

(** X2: [validate_numbers_usage used allowed] is true exactly when every
    number occurs in [used] at most as often as in [allowed]; the subset
    test at its end never changes the answer. *)
Theorem validate_numbers_usage_counts (used allowed : list Z) :
  (validate_numbers_usage used allowed = true <->
   forall k, (count used k <= count allowed k)%nat) /\
  validate_numbers_usage used allowed =
    negb (existsb (fun k => (count allowed k <? count used k)%nat)
                  (distinct used)).
Proof.
  unfold validate_numbers_usage.
  destruct (existsb _ (distinct used)) eqn:E.
  - split; [|reflexivity]. split; [discriminate|]. intros Hall.
    apply existsb_exists in E as (k & _ & Hk).
    apply Nat.ltb_lt in Hk. specialize (Hall k). lia.
  - assert (forall k, (count used k <= count allowed k)%nat) as Hall.
    { intros k. destruct (decide (k ∈ used)) as [Hin|Hout].
      - rewrite <- elem_of_distinct, list_elem_of_In in Hin.
        destruct (Nat.ltb_spec (count allowed k) (count used k)) as [Hlt|];
          [|assumption].
        exfalso. apply Nat.ltb_lt in Hlt.
        assert (existsb (fun k => (count allowed k <? count used k)%nat)
                        (distinct used) = true) as Ht
          by (apply existsb_exists; exists k; now split).
        congruence.
      - rewrite (count_zero used k Hout). lia. }
    assert (forallb (fun k => bool_decide (k ∈ distinct allowed))
                    (distinct used) = true) as Hsub.
    { apply forallb_forall. intros x Hx. apply bool_decide_eq_true.
      rewrite <- list_elem_of_In, elem_of_distinct in Hx.
      rewrite elem_of_distinct. apply count_pos. apply count_pos in Hx.
      specialize (Hall x). lia. }
    rewrite Hsub. split; [|reflexivity]. split; auto.
Qed.

(** The two assertions of [_tests] on [validate_numbers_usage]. *)
Example tests_validate :
  validate_numbers_usage [3; 4] [1; 3; 4] = true /\
  validate_numbers_usage [3; 3] [3] = false.
Proof. split; reflexivity. Qed.

Lemma validate_numbers_usage_counts_witness :
  Nat.le (count [3; 4] 3) (count [1; 3; 4] 3).
Proof.
  apply (proj1 (proj1 (validate_numbers_usage_counts [3; 4] [1; 3; 4]))).
  reflexivity.
Defined.

(** ** The puzzle helpers: Mastermind *)

Section MastermindFacts.

Import MastermindPuzzle.

Lemma placed_none (g c : list ascii) :
  placed g c = None <-> (List.length c < List.length g)%nat.
Proof.
  revert c; induction g as [|x g IH]; intros [|y c]; simpl.
  - split; [discriminate | lia].
  - split; [discriminate | lia].
  - split; [lia | reflexivity].
  - specialize (IH c). destruct (placed g c).
    + split; [discriminate|]. intros Hlt.
      assert (Some n = None) as Hc by (apply IH; lia). discriminate Hc.
    + split; [|reflexivity]. intros _.
      assert (List.length c < List.length g)%nat by now apply IH. lia.
Qed.

Lemma placed_matched (g c : list ascii) (a : nat) :
  placed g c = Some a ->
  a = List.length (matched g c) /\ (List.length g <= List.length c)%nat.
Proof.
  revert c a; induction g as [|x g IH]; intros [|y c] a; simpl;
    try discriminate.
  - intros [= <-]. split; [reflexivity | lia].
  - intros [= <-]. split; [reflexivity | lia].
  - destruct (placed g c) as [n|] eqn:E; [|discriminate].
    destruct (IH c n E) as [-> Hle]. intros [= <-].
    destruct (Ascii.eqb x y); simpl; split; (reflexivity || lia).
Qed.

Lemma matched_length (g c : list ascii) :
  (List.length (matched g c) <= List.length g)%nat.
Proof.
  revert c; induction g as [|x g IH]; intros [|y c]; simpl; try lia.
  specialize (IH c). destruct (Ascii.eqb x y); simpl; lia.
Qed.

Lemma matched_count_guess (g c : list ascii) (d : ascii) :
  (count (matched g c) d <= count g d)%nat.
Proof.
  revert c; induction g as [|x g IH]; intros [|y c]; simpl;
    try (unfold count; simpl; lia).
  specialize (IH c). rewrite (count_cons x g).
  destruct (Ascii.eqb x y); [rewrite count_cons|]; lia.
Qed.

Lemma matched_count_code (g c : list ascii) (d : ascii) :
  (count (matched g c) d <= count c d)%nat.
Proof.
  revert c; induction g as [|x g IH]; intros [|y c]; simpl;
    try (unfold count; simpl; lia).
  specialize (IH c). rewrite (count_cons y c).
  destruct (Ascii.eqb_spec x y) as [->|Hne]; [rewrite count_cons|]; lia.
Qed.

Lemma matched_in_code (g c : list ascii) (d : ascii) :
  d ∈ matched g c -> d ∈ c.
Proof.
  intros Hd. apply count_pos. apply count_pos in Hd.
  pose proof (matched_count_code g c d). lia.
Qed.

(** The digits in place are among the digits in common. *)
Lemma placed_le_common (g c : list ascii) (a : nat) :
  placed g c = Some a -> (a <= common_count (distinct c) c g)%nat.
Proof.
  intros Hp. destruct (placed_matched g c a Hp) as [-> _].
  rewrite <- (sum_counts_all (matched g c) (distinct c)).
  - unfold common_count. apply sum_list_le. intros k.
    pose proof (matched_count_guess g c k).
    pose proof (matched_count_code g c k). lia.
  - apply NoDup_distinct.
  - intros x Hx. apply elem_of_distinct. now apply (matched_in_code g c).
Qed.

Lemma matched_all (g c : list ascii) :
  (List.length g <= List.length c)%nat ->
  List.length (matched g c) = List.length g <-> g `prefix_of` c.
Proof.
  revert c; induction g as [|x g IH]; intros [|y c] Hlen; simpl in *.
  - split; [intros _; apply prefix_nil | reflexivity].
  - split; [intros _; apply prefix_nil | reflexivity].
  - lia.
  - assert (List.length g <= List.length c)%nat as Hlen' by lia.
    specialize (IH c Hlen'). pose proof (matched_length g c) as Hm.
    destruct (Ascii.eqb_spec x y) as [->|Hne]; simpl.
    + split.
      * intros [= Hl]. apply prefix_cons, IH, Hl.
      * intros Hp. f_equal. apply IH. now apply prefix_cons_inv_2 in Hp.
    + split; [lia|]. intros Hp. apply prefix_cons_inv_1 in Hp. contradiction.
Qed.

End MastermindFacts.

(** X4: [MastermindPuzzle.attempt] answers "found" exactly when the guess is
    a string of digits of the declared length that the code starts with;
    when the code has that length, exactly when the guess is the code. *)
Theorem mastermind_found_iff (self : MastermindPuzzle.t) (guess : string)
    (fb : feedback) :
  MastermindPuzzle.attempt self guess = Some (true, fb) <->
  fb = fb_found /\ isdigit guess = true /\
  Z.of_nat (List.length (list_ascii_of_string guess))
    = MastermindPuzzle.length self /\
  list_ascii_of_string guess
    `prefix_of` list_ascii_of_string (MastermindPuzzle.code self).
Proof.
  unfold MastermindPuzzle.attempt.
  set (g := list_ascii_of_string guess).
  set (c := list_ascii_of_string (MastermindPuzzle.code self)).
  destruct (isdigit guess); simpl;
    [|split; [discriminate | intros (_ & Hd & _); discriminate Hd]].
  destruct (Z.eqb_spec (Z.of_nat (List.length g))
                       (MastermindPuzzle.length self)) as [Hlen|Hlen]; simpl;
    [|split; [discriminate | intros (_ & _ & Hl & _); contradiction]].
  destruct (MastermindPuzzle.placed g c) as [a|] eqn:Hp.
  - destruct (placed_matched g c a Hp) as [Ha Hle].
    pose proof (matched_all g c Hle) as Hall.
    destruct (Z.eqb_spec (Z.of_nat a) (MastermindPuzzle.length self))
      as [Heq|Hne].
    + split.
      * intros [= <-]. repeat split; auto. apply Hall. lia.
      * intros (-> & _). reflexivity.
    + split; [discriminate|]. intros (_ & _ & _ & Hpre).
      apply Hall in Hpre. lia.
  - split; [discriminate|]. intros (_ & _ & _ & Hpre).
    apply placed_none in Hp. apply prefix_length in Hpre. lia.
Qed.

Lemma mastermind_found_iff_witness :
  isdigit "1123" = true.
Proof.
  apply (proj1 (mastermind_found_iff
                  {| MastermindPuzzle.length := 4;
                     MastermindPuzzle.code := "1123";
                     MastermindPuzzle.hints_given := 0 |}
                  "1123" fb_found)).
  reflexivity.
Defined.

(** X5: When [MastermindPuzzle.attempt] reports counts, they are sound:
    fewer than all digits are in place, the number of misplaced digits
    is not negative, and both together do not exceed the length. *)
Theorem mastermind_counts_bounds (self : MastermindPuzzle.t) (guess : string)
    (A B : Z) :
  MastermindPuzzle.attempt self guess = Some (false, fb_placed A B) ->
  0 <= A < MastermindPuzzle.length self /\ 0 <= B /\
  A + B <= MastermindPuzzle.length self.
Proof.
  unfold MastermindPuzzle.attempt.
  set (g := list_ascii_of_string guess).
  set (c := list_ascii_of_string (MastermindPuzzle.code self)).
  destruct (isdigit guess); simpl; [|discriminate].
  destruct (Z.eqb_spec (Z.of_nat (List.length g))
                       (MastermindPuzzle.length self)) as [Hlen|Hlen]; simpl;
    [|discriminate].
  destruct (MastermindPuzzle.placed g c) as [a|] eqn:Hp; [|discriminate].
  destruct (placed_matched g c a Hp) as [Ha _].
  pose proof (matched_length g c) as Hm.
  pose proof (placed_le_common g c a Hp) as Hc.
  pose proof (common_count_le_r (distinct c) c g (NoDup_distinct c)) as Hr.
  destruct (Z.eqb_spec (Z.of_nat a) (MastermindPuzzle.length self))
    as [Heq|Hne]; [discriminate|].
  intros [= <- <-]. lia.
Qed.

Lemma mastermind_counts_bounds_witness : 0 <= 0 /\ 3 + 0 <= 4.
Proof.
  destruct (mastermind_counts_bounds
              {| MastermindPuzzle.length := 4;
                 MastermindPuzzle.code := "1123";
                 MastermindPuzzle.hints_given := 0 |}
              "1223" 3 0 eq_refl) as (_ & Hb & Hs).
  split; [exact Hb | exact Hs].
Defined.

(** X6: [MastermindPuzzle.attempt] raises exactly on a well-formed guess
    against a code shorter than the declared length; a guess that is not
    all digits or has another length is answered without looking at the
    code. *)
Theorem mastermind_raises_iff (self : MastermindPuzzle.t) (guess : string) :
  (MastermindPuzzle.attempt self guess = None <->
   isdigit guess = true /\
   Z.of_nat (List.length (list_ascii_of_string guess))
     = MastermindPuzzle.length self /\
   (List.length (list_ascii_of_string (MastermindPuzzle.code self))
    < List.length (list_ascii_of_string guess))%nat) /\
  (isdigit guess = false \/
   Z.of_nat (List.length (list_ascii_of_string guess))
     <> MastermindPuzzle.length self ->
   MastermindPuzzle.attempt self guess =
     Some (false, fb_wrong_length (MastermindPuzzle.length self))).
Proof.
  unfold MastermindPuzzle.attempt.
  set (g := list_ascii_of_string guess).
  set (c := list_ascii_of_string (MastermindPuzzle.code self)).
  destruct (isdigit guess); simpl.
  2:{ split; [|reflexivity].
      split; [discriminate | intros (Hd & _); discriminate Hd]. }
  destruct (Z.eqb_spec (Z.of_nat (List.length g))
                       (MastermindPuzzle.length self)) as [Hlen|Hlen]; simpl.
  2:{ split; [|reflexivity].
      split; [discriminate | intros (_ & Hl & _); contradiction]. }
  split; [|intros [Hd|Hl]; [discriminate Hd | contradiction]].
  destruct (MastermindPuzzle.placed g c) as [a|] eqn:Hp.
  - destruct (placed_matched g c a Hp) as [_ Hle].
    destruct (Z.of_nat a =? MastermindPuzzle.length self);
      (split; [discriminate | intros (_ & _ & Hlt); lia]).
  - apply placed_none in Hp. split; auto.
Qed.

Lemma mastermind_raises_iff_witness :
  MastermindPuzzle.attempt
    {| MastermindPuzzle.length := 4; MastermindPuzzle.code := "12";
       MastermindPuzzle.hints_given := 0 |} "1234" = None.
Proof.
  apply (proj2 (proj1 (mastermind_raises_iff
                  {| MastermindPuzzle.length := 4;
                     MastermindPuzzle.code := "12";
                     MastermindPuzzle.hints_given := 0 |} "1234"))).
  repeat split; simpl; lia.
Defined.

(** The assertion of [_tests] on the Mastermind puzzle. *)
Example tests_mastermind :
  MastermindPuzzle.attempt
    {| MastermindPuzzle.length := 4; MastermindPuzzle.code := "1123";
       MastermindPuzzle.hints_given := 0 |} "1223"
  = Some (false, fb_placed 3 0).
Proof. reflexivity. Qed.

Section HintFacts.

Lemma take_hints_from (c : string) (pre suf : list ascii) :
  list_ascii_of_string c = pre ++ suf ->
  MastermindPuzzle.take_hints (List.length suf)
    {| MastermindPuzzle.length :=
         Z.of_nat (List.length (list_ascii_of_string c));
       MastermindPuzzle.code := c;
       MastermindPuzzle.hints_given := Z.of_nat (List.length pre) |}
  = imap (fun i d =>
            Some (Z.of_nat (List.length pre + i) + 1,
                  Z.of_nat (List.length pre + i) + 1, d)) suf.
Proof.
  revert pre. induction suf as [|d suf IH]; intros pre Hc; [reflexivity|].
  assert (List.length (list_ascii_of_string c)
          = (List.length pre + S (List.length suf))%nat) as Hlen
    by (rewrite Hc, length_app; reflexivity).
  cbn [List.length MastermindPuzzle.take_hints].
  unfold MastermindPuzzle.get_hint at 1 2.
  cbn [MastermindPuzzle.length MastermindPuzzle.code
       MastermindPuzzle.hints_given].
  destruct (Z.eqb_spec (Z.of_nat (List.length (list_ascii_of_string c))) 0)
    as [Hz|_]; [lia|].
  replace (Z.of_nat (List.length pre) + 1 - 1) with (Z.of_nat (List.length pre))
    by lia.
  rewrite Z.mod_small by lia.
  assert (MastermindPuzzle.index c (Z.of_nat (List.length pre)) = Some d)
    as Hidx.
  { unfold MastermindPuzzle.index.
    destruct (Z.leb_spec 0 (Z.of_nat (List.length pre))); [|lia].
    destruct (Z.ltb_spec (Z.of_nat (List.length pre))
                (Z.of_nat (List.length (list_ascii_of_string c)))); [|lia].
    simpl. rewrite Nat2Z.id, Hc, nth_error_app2 by lia.
    now rewrite Nat.sub_diag. }
  rewrite Hidx. cbn [fst snd]. rewrite imap_cons. f_equal.
  - rewrite Nat.add_0_r. reflexivity.
  - specialize (IH (pre ++ [d])).
    rewrite length_app in IH. simpl in IH.
    replace (Z.of_nat (List.length pre + 1)) with (Z.of_nat (List.length pre) + 1)
      in IH by lia.
    rewrite IH by (rewrite Hc, <- app_assoc; reflexivity).
    apply imap_ext. intros i x _. unfold compose.
    assert (forall a b : Z, a = b -> Some (a, a, x) = Some (b, b, x)) as Hf
      by (intros ? ? ->; reflexivity).
    apply Hf. lia.
Qed.

End HintFacts.

(** X7: On a Mastermind puzzle whose code has the declared length, as many
    hints as the code has digits show the whole code: hint number [i]
    shows position [i] and the digit that stands there. *)
Theorem mastermind_hints_reveal_code (c : string) :
  MastermindPuzzle.take_hints (List.length (list_ascii_of_string c))
    {| MastermindPuzzle.length :=
         Z.of_nat (List.length (list_ascii_of_string c));
       MastermindPuzzle.code := c;
       MastermindPuzzle.hints_given := 0 |}
  = imap (fun i d => Some (Z.of_nat i + 1, Z.of_nat i + 1, d))
         (list_ascii_of_string c).
Proof. exact (take_hints_from c [] (list_ascii_of_string c) eq_refl). Qed.

(** With the declared length 0 every hint raises, and the counter of
    hints has gone up all the same. *)
Example mastermind_hint_length_zero :
  MastermindPuzzle.get_hint
    {| MastermindPuzzle.length := 0; MastermindPuzzle.code := "12";
       MastermindPuzzle.hints_given := 0 |}
  = ({| MastermindPuzzle.length := 0; MastermindPuzzle.code := "12";
        MastermindPuzzle.hints_given := 1 |}, None).
Proof. reflexivity. Qed.

(** ** The puzzle helpers: anagrams and expressions *)

Section TextFacts.

Lemma lower_char_idem (c : ascii) : lower_char (lower_char c) = lower_char c.
Proof. destruct c as [[] [] [] [] [] [] [] []]; reflexivity. Qed.

Lemma lower_idem (s : string) : lower (lower s) = lower s.
Proof.
  induction s as [|c s IH]; [reflexivity|].
  simpl. now rewrite lower_char_idem, IH.
Qed.

Lemma digit_char_facts (c : ascii) :
  is_digit c = true ->
  is_int_space c = false /\ Ascii.eqb c "+" = false /\
  Ascii.eqb c "-" = false /\ Ascii.eqb c underscore = false /\
  exists d, digit_value c = Some d /\ 0 <= d.
Proof.
  destruct c as [[] [] [] [] [] [] [] []]; try discriminate;
    intros _; repeat split; try reflexivity;
    eexists; (split; [reflexivity | vm_compute; discriminate]).
Qed.

Lemma scan_digits (l : list ascii) :
  Forall (fun c => is_digit c = true) l ->
  forall (acc : Z) (n : nat), 0 <= acc ->
  exists v, scan false acc n l = Some (v, (n + List.length l)%nat, [])
            /\ 0 <= v.
Proof.
  induction 1 as [|c l Hc Hl IH]; intros acc n Hacc.
  - exists acc. simpl. rewrite Nat.add_0_r. auto.
  - destruct (digit_char_facts c Hc) as (_ & _ & _ & _ & d & Hd & Hpos).
    cbn [scan]. rewrite Hd.
    destruct (IH (10 * acc + d) (S n)) as (v & Hv & Hvpos); [lia|].
    exists v. rewrite Hv. split; [|exact Hvpos].
    replace (n + List.length (c :: l))%nat with (S n + List.length l)%nat
      by (simpl; lia).
    reflexivity.
Qed.

(** [int] on a non-empty string of digits: the digit limit is the only
    way to fail, and the value is not negative. *)
Lemma python_int_digits (l : list ascii) :
  l <> [] -> Forall (fun c => is_digit c = true) l ->
  exists v, 0 <= v /\
    python_int (string_of_list_ascii l) =
    if (int_max_str_digits <? List.length l)%nat then None else Some v.
Proof.
  intros Hne Hall. destruct l as [|c l]; [contradiction|].
  pose proof (Forall_inv Hall) as Hc.
  destruct (digit_char_facts c Hc) as (Hsp & Hplus & Hminus & Hus & _).
  destruct (scan_digits (c :: l) Hall 0 0 (Z.le_refl 0)) as (v & Hv & Hpos).
  exists v. split; [exact Hpos|].
  unfold python_int. rewrite list_ascii_of_string_of_list_ascii.
  cbn [lstrip_int]. rewrite Hsp, Hplus, Hminus, Hus, Hv.
  cbn [Nat.add List.length Nat.eqb forallb].
  destruct (int_max_str_digits <? S (List.length l))%nat; reflexivity.
Qed.

Lemma digit_runs_spec (s : list ascii) :
  Forall (fun run => run <> [] /\ Forall (fun c => is_digit c = true) run /\
                     (List.length run <= List.length s)%nat)
         (digit_runs s).
Proof.
  induction s as [|c r IH]; [constructor|].
  assert (Forall (fun run => run <> [] /\
                    Forall (fun c => is_digit c = true) run /\
                    (List.length run <= List.length (c :: r))%nat)
                 (digit_runs r)) as IH'.
  { eapply Forall_impl; [exact IH|]. simpl. intros run (? & ? & ?).
    repeat split; auto. }
  cbn [digit_runs]. destruct (is_digit c) eqn:Hc; [|exact IH'].
  assert ([c] <> [] /\ Forall (fun c => is_digit c = true) [c] /\
          (List.length [c] <= List.length (c :: r))%nat) as Hone.
  { repeat split; [discriminate | repeat constructor; exact Hc | simpl; lia]. }
  destruct r as [|c' r']; [constructor; [exact Hone | constructor]|].
  destruct (is_digit c'); [|constructor; [exact Hone | exact IH']].
  destruct (digit_runs (c' :: r')) as [|run rest];
    [constructor; [exact Hone | constructor]|].
  inversion IH as [|? ? (Hne & Hdig & Hlen) Hrest]; subst.
  constructor.
  - repeat split; [discriminate | constructor; [exact Hc | exact Hdig] |].
    simpl in *. lia.
  - inversion IH'; assumption.
Qed.

Lemma parse_segments_nonneg (xs : list string) (l : list Z) :
  Forall (fun x => forall v, python_int x = Some v -> 0 <= v) xs ->
  parse_segments xs = Some l -> Forall (fun v => 0 <= v) l.
Proof.
  intros Hall. revert l. induction Hall as [|x xs Hx Hxs IH]; intros l; simpl.
  - intros [= <-]. constructor.
  - destruct (python_int x) as [v|] eqn:Ev; [|discriminate].
    destruct (parse_segments xs) as [t|]; [|discriminate].
    intros [= <-]. constructor; [now apply Hx | now apply IH].
Qed.

Lemma parse_segments_total (xs : list string) :
  Forall (fun x => is_Some (python_int x)) xs -> is_Some (parse_segments xs).
Proof.
  induction 1 as [|x xs [v Hv] Hxs [t Ht]]; simpl; [eauto|].
  rewrite Hv, Ht. eauto.
Qed.

Lemma length_list_ascii (s : string) :
  List.length (list_ascii_of_string s) = String.length s.
Proof. induction s as [|c s IH]; simpl; [|rewrite IH]; reflexivity. Qed.

End TextFacts.

(** X8: A word that is not all lower case cannot be guessed: the guess is
    lowercased before it is compared, the word is not. *)
Theorem anagram_word_must_be_lowercase (word : string) :
  lower word <> word ->
  forall guess : string, fst (anagram_attempt word guess) = false.
Proof.
  intros Hw guess. unfold anagram_attempt.
  destruct (String.eqb_spec (lower (strip guess)) word) as [Heq|];
    [|reflexivity].
  exfalso. apply Hw. rewrite <- Heq. apply lower_idem.
Qed.

Lemma anagram_word_must_be_lowercase_witness :
  fst (anagram_attempt "Python" " python ") = false.
Proof.
  apply anagram_word_must_be_lowercase. discriminate.
Defined.

(** X9: The number of common letters [AnagramPuzzle.attempt] reports for a
    wrong guess exceeds neither the length of the word nor the length of
    the guess. *)
Theorem anagram_common_letters_bounded (word guess : string) (n : nat) :
  anagram_attempt word guess = (false, fb_common n) ->
  (n <= String.length word)%nat /\ (n <= String.length guess)%nat.
Proof.
  unfold anagram_attempt.
  destruct (String.eqb (lower (strip guess)) word); [discriminate|].
  intros [= <-]. rewrite <- !length_list_ascii. split.
  - apply common_count_le_l, NoDup_distinct.
  - apply common_count_le_r, NoDup_distinct.
Qed.

Lemma anagram_common_letters_bounded_witness :
  (4 <= String.length "python")%nat.
Proof.
  exact (proj1 (anagram_common_letters_bounded "python" "typo0" 4 eq_refl)).
Defined.

(** X3: [extract_integers_from_expression] never yields a negative number,
    whatever signs the expression holds, and on an expression of at most
    4300 characters (the digit limit of [int]) it does not raise. *)
Theorem extract_integers_nonneg (expr : string) :
  (forall l, extract_integers_from_expression expr = Some l ->
             Forall (fun v => 0 <= v) l) /\
  ((String.length expr <= int_max_str_digits)%nat ->
   is_Some (extract_integers_from_expression expr)).
Proof.
  unfold extract_integers_from_expression.
  pose proof (digit_runs_spec (list_ascii_of_string expr)) as Hruns.
  rewrite length_list_ascii in Hruns. split.
  - intros l. apply parse_segments_nonneg.
    apply Forall_map. eapply Forall_impl; [exact Hruns|].
    intros run (Hne & Hdig & _) v.
    destruct (python_int_digits run Hne Hdig) as (v0 & Hpos & ->).
    destruct (int_max_str_digits <? List.length run)%nat; [discriminate|].
    now intros [= <-].
  - intros Hshort. apply parse_segments_total.
    apply Forall_map. eapply Forall_impl; [exact Hruns|].
    intros run (Hne & Hdig & Hlen).
    destruct (python_int_digits run Hne Hdig) as (v0 & _ & ->).
    destruct (Nat.ltb_spec int_max_str_digits (List.length run)); [lia|].
    eauto.
Qed.

Lemma extract_integers_nonneg_witness :
  is_Some (extract_integers_from_expression "(3+4)*2-10").
Proof.
  apply (proj2 (extract_integers_nonneg "(3+4)*2-10")).
  unfold int_max_str_digits. simpl. lia.
Defined.

Example extract_example :
  extract_integers_from_expression "(3+4)*2-10" = Some [3; 4; 2; 10].
Proof. reflexivity. Qed.

Example extract_splits_decimals :
  extract_integers_from_expression "12.5" = Some [12; 5].
Proof. reflexivity. Qed.

(** ** The handler: the paths before the download *)

(** X10: When the manifest cannot be fetched, or has no version or an empty
    one, the handler shows one error box and returns (ABORTED): no
    question is asked, nothing is downloaded and no file changes. *)
Theorem unusable_manifest_aborts {hasher : Hasher} (w : world) (st : state) :
  (network_json w UPDATE_INFO_URL = None ->
   _on_check_for_update w st =
     ({| fs := fs st;
         trace := trace st ++ [ev_fetch UPDATE_INFO_URL true;
                               ev_showerror msg_fetch_error] |},
      exit_fetch_error)) /\
  (forall info,
     network_json w UPDATE_INFO_URL = Some info ->
     info !! "version" = None \/ info !! "version" = Some EmptyString ->
     _on_check_for_update w st =
       ({| fs := fs st;
           trace := trace st ++ [ev_fetch UPDATE_INFO_URL false;
                                 ev_showerror msg_no_version] |},
        exit_no_version)).
Proof.
  split.
  - intros Hj. unfold _on_check_for_update, check_download_verify.
    rewrite Hj. unfold log; simpl. now rewrite <- app_assoc.
  - intros info Hj Hv. unfold _on_check_for_update, check_download_verify.
    rewrite Hj.
    assert (truthy (info !! "version") = false) as ->
      by (destruct Hv as [-> | ->]; reflexivity).
    unfold log; simpl. now rewrite <- app_assoc.
Qed.

Lemma unusable_manifest_aborts_witness :
  snd (run (example_world (manifest EmptyString None) conn_fail None false
                          no_fault)) = exit_no_version.
Proof.
  pose proof (proj2 (@unusable_manifest_aborts concat_hasher
    (example_world (manifest EmptyString None) conn_fail None false no_fault)
    start) (manifest EmptyString None) eq_refl (or_intror eq_refl)) as H.
  unfold run. now rewrite H.
Defined.

(** X11: A remote version whose tuple is not greater than the tuple of the
    running version, be it older, equal or unparsable, ends the handler
    at "no update found" (UP_TO_DATE) with the files as they were. *)
Theorem not_newer_is_up_to_date {hasher : Hasher} (w : world) (st : state)
    (info : gmap string string) (v : string) :
  network_json w UPDATE_INFO_URL = Some info ->
  info !! "version" = Some v -> v <> EmptyString ->
  tuple_le (_version_tuple v) (_version_tuple CURRENT_VERSION) = true ->
  _on_check_for_update w st =
    ({| fs := fs st;
        trace := trace st ++ [ev_fetch UPDATE_INFO_URL false;
                              ev_showinfo (msg_up_to_date v)] |},
     exit_up_to_date).
Proof.
  intros Hj Hv Hne Hle.
  unfold _on_check_for_update, check_download_verify.
  rewrite Hj, Hv. simpl truthy.
  apply String.eqb_neq in Hne. rewrite Hne. simpl negb. cbv iota.
  simpl default. rewrite Hle. unfold log; simpl. now rewrite <- app_assoc.
Qed.

Lemma not_newer_is_up_to_date_witness :
  snd (run (example_world (manifest "1.0.0" None) conn_fail None false
                          no_fault)) = exit_up_to_date.
Proof.
  assert ("1.0.0" <> EmptyString) as Hne by discriminate.
  pose proof (@not_newer_is_up_to_date concat_hasher
    (example_world (manifest "1.0.0" None) conn_fail None false no_fault)
    start (manifest "1.0.0" None) "1.0.0" eq_refl eq_refl Hne eq_refl) as H.
  unfold run. now rewrite H.
Defined.

(** X12: Nothing is downloaded without the user's consent: when the answer
    to the download question is no, the handler changes no file, opens no
    download and starts no process, whatever the manifest says. *)
Theorem no_download_without_consent {hasher : Hasher} (w : world)
    (st : state) :
  answer_download w = false ->
  fs (fst (_on_check_for_update w st)) = fs st /\
  List.filter is_download (trace (fst (_on_check_for_update w st)))
    = List.filter is_download (trace st) /\
  List.filter is_process (trace (fst (_on_check_for_update w st)))
    = List.filter is_process (trace st).
Proof.
  intros Hans. unfold _on_check_for_update, check_download_verify.
  rewrite Hans.
  destruct (network_json w UPDATE_INFO_URL) as [info|]; simpl.
  - destruct (truthy (info !! "version")); simpl.
    + destruct (tuple_le _ _); simpl;
        rewrite !List.filter_app; simpl; rewrite ?app_nil_r; auto.
    + rewrite !List.filter_app; simpl; rewrite ?app_nil_r; auto.
  - rewrite !List.filter_app; simpl; rewrite ?app_nil_r; auto.
Qed.

Lemma no_download_without_consent_witness :
  fs (fst (@_on_check_for_update concat_hasher
             {| argv0 := script; executable := "/usr/bin/python3";
                abspath := fun p => p; tmpdir := "/tmp"; rnd := "k3x9q2ab";
                network_json := fun _ => Some (manifest "2.0.0" None);
                network_body := fun _ => body new_bytes true;
                answer_download := false; answer_apply := Some true;
                answer_replace := true; fault := no_fault;
                torn := fun _ => None; outside := fun _ m => m |} start))
  = fs start.
Proof.
  apply (@no_download_without_consent concat_hasher). reflexivity.
Defined.

(** ** The download and the digest *)

(** X14: When the manifest names no URL or the connection fails, the handler
    shows the download error and returns (ABORTED) with no file created
    or changed. *)
Theorem failed_connection_aborts {hasher : Hasher} (w : world) (st : state)
    (info : gmap string string) (v : string) :
  network_json w UPDATE_INFO_URL = Some info ->
  info !! "version" = Some v ->
  tuple_le (_version_tuple v) (_version_tuple CURRENT_VERSION) = false ->
  answer_download w = true ->
  (info !! "url" = None \/
   exists u, info !! "url" = Some u /\ network_body w u = conn_fail) ->
  _on_check_for_update w st =
    ({| fs := fs st;
        trace := trace st ++
          [ev_fetch UPDATE_INFO_URL false;
           ev_askyesno (ask_download v (default EmptyString (info !! "notes")))
                       true;
           ev_urlopen (info !! "url") true;
           ev_showerror msg_download_error] |},
     exit_download_error).
Proof.
  intros Hj Hv Hnew Hans Hurl.
  unfold _on_check_for_update, check_download_verify.
  rewrite Hj, Hv, (newer_is_truthy v Hnew). simpl negb. cbv iota.
  simpl default at 1. rewrite Hnew, Hans. simpl negb. cbv iota.
  unfold _download_to_temp.
  destruct Hurl as [-> | (u & -> & ->)];
    unfold log; simpl; rewrite <- !app_assoc; reflexivity.
Qed.

Lemma failed_connection_aborts_witness :
  snd (run (example_world (manifest "2.0.0" None) conn_fail None false
                          no_fault)) = exit_download_error.
Proof.
  pose proof (@failed_connection_aborts concat_hasher
    (example_world (manifest "2.0.0" None) conn_fail None false no_fault)
    start (manifest "2.0.0" None) "2.0.0" eq_refl eq_refl eq_refl eq_refl
    (or_intror (ex_intro _ release_url (conj eq_refl eq_refl)))) as H.
  unfold run. now rewrite H.
Defined.

(** X15: A digest that equals the digest of the downloaded file up to the
    case of its letters passes: one hash is computed, the temporary file
    keeps the downloaded bytes and the handler goes on to the apply
    question. *)
Theorem matching_digest_passes {hasher : Hasher} (w : world) (st : state)
    (info : gmap string string) (v u d : string) (data : content) :
  network_json w UPDATE_INFO_URL = Some info ->
  info !! "version" = Some v ->
  tuple_le (_version_tuple v) (_version_tuple CURRENT_VERSION) = false ->
  info !! "url" = Some u ->
  info !! "sha256" = Some d -> d <> EmptyString ->
  answer_download w = true ->
  network_body w u = body data true ->
  fs st !! mkstemp_name w = None ->
  lower (sha256_of data) = lower d ->
  let tmp_path := mkstemp_name w in
  let ready :=
    {| fs := <[tmp_path := data]> (fs st);
       trace := trace st ++ download_events w info v u
                ++ [ev_sha256 tmp_path false] |} in
  check_download_verify w st = (ready, inr (v, tmp_path)) /\
  _on_check_for_update w st = install w v tmp_path ready /\
  exists rest,
    trace (fst (_on_check_for_update w st)) =
    trace ready ++
    ev_askyesnocancel (ask_apply tmp_path) (answer_apply w) :: rest.
Proof.
  intros Hj Hv Hnew Hu Hsha Hd Hans Hb Hfresh Hsame tmp_path ready.
  assert (check_download_verify w st = (ready, inr (v, tmp_path))) as Hc.
  { rewrite (reaches_verification w st info v u data) by assumption.
    unfold verify. rewrite Hsha. simpl truthy.
    apply String.eqb_neq in Hd. rewrite Hd. simpl negb. cbv iota.
    unfold _compute_sha256. simpl fs. rewrite lookup_insert_eq.
    simpl default. apply String.eqb_eq in Hsame. rewrite Hsame.
    simpl negb. cbv iota. unfold log; simpl. subst ready tmp_path.
    rewrite <- !app_assoc. reflexivity. }
  assert (_on_check_for_update w st = install w v tmp_path ready) as Hi.
  { unfold _on_check_for_update. now rewrite Hc. }
  repeat split; auto. rewrite Hi. apply install_asks_first.
Qed.

Lemma matching_digest_passes_witness :
  fs (fst (@check_download_verify concat_hasher uppercase_digest_world start))
    !! tmp_file = Some new_bytes.
Proof.
  assert ("new" <> EmptyString) as Hd by discriminate.
  destruct (@matching_digest_passes concat_hasher uppercase_digest_world
              start (manifest "2.0.0" (Some "new")) "2.0.0" release_url "new"
              new_bytes eq_refl eq_refl eq_refl eq_refl eq_refl Hd
              eq_refl eq_refl eq_refl eq_refl)
    as (Hc & _).
  rewrite Hc. reflexivity.
Defined.

(** X16: For a hasher whose [update] may be fed in pieces, the digest
    [_compute_sha256] computes in chunks of 4096 bytes is the digest of
    the whole file fed at once. *)
Theorem chunked_digest_is_digest {hasher : Hasher} (data : content) :
  (forall h a b, h_update (h_update h a) b = h_update h (a ++ b)) ->
  (forall h, h_update h [] = h) ->
  sha256_of data = h_hexdigest (h_update h_new data).
Proof.
  intros Hstream Hnil. unfold sha256_of.
  assert (forall fuel d h, (List.length d <= fuel)%nat ->
            fold_left h_update (read_chunks fuel d) h = h_update h d) as Hfold.
  { induction fuel as [|fuel IH]; intros d h Hlen.
    - destruct d; [simpl; now rewrite Hnil | simpl in Hlen; lia].
    - destruct d as [|x d]; [simpl; now rewrite Hnil|].
      change (read_chunks (S fuel) (x :: d))
        with (take 4096 (x :: d) :: read_chunks fuel (drop 4096 (x :: d))).
      cbn [fold_left]. rewrite IH.
      + now rewrite Hstream, take_drop.
      + rewrite length_drop. simpl in *. lia. }
  now rewrite Hfold.
Qed.

Lemma chunked_digest_is_digest_witness :
  @sha256_of concat_hasher new_bytes = "NEW".
Proof.
  rewrite (@chunked_digest_is_digest concat_hasher new_bytes).
  - reflexivity.
  - intros h a b. simpl. now rewrite <- app_assoc.
  - intros h. simpl. apply app_nil_r.
Defined.

(** ** Applying the download *)

(** X17: Declining at the apply question, or choosing replacement and then
    declining its confirmation, removes the temporary file and does
    nothing else: no report, no process, no other file touched; a
    removal that raises is passed over in silence and leaves the files
    as they were. *)
Theorem declining_removes_temp (w : world) (v tmp_path : string)
    (st : state) :
  answer_apply w = None \/
  answer_apply w = Some false /\ answer_replace w = false ->
  let s := match answer_apply w with
           | None => remove_cancel
           | _ => remove_declined
           end in
  let r := install w v tmp_path st in
  snd r = match answer_apply w with
          | None => exit_cancelled
          | _ => exit_replace_declined
          end /\
  List.filter is_report (trace (fst r)) = List.filter is_report (trace st) /\
  List.filter is_process (trace (fst r)) = List.filter is_process (trace st) /\
  fs (fst r) = if fault w s then fs st else delete tmp_path (fs st).
Proof.
  intros Hans s r. subst s r. unfold install, replace_current_file.
  destruct Hans as [-> | [-> ->]]; simpl.
  - destruct (call_cases w remove_cancel (Remove tmp_path)
                (log (ev_askyesnocancel (ask_apply tmp_path) None) st))
      as [E | [(? & ? & ? & [Hop|Hop] & _) | (m & Hf & Ha & E)]];
      try discriminate Hop; rewrite E; simpl;
      rewrite !List.filter_app; simpl; rewrite ?app_nil_r;
      repeat split; auto.
    + destruct (fault w remove_cancel) eqn:Hf; [reflexivity|].
      unfold call in E. rewrite Hf in E. simpl in E.
      destruct (fs st !! tmp_path) eqn:Hl; [discriminate E|].
      symmetry. now apply delete_id.
    + rewrite Hf. now apply fs_apply_remove in Ha.
  - destruct (call_cases w remove_declined (Remove tmp_path)
                (log (ev_askyesno (ask_replace (argv0 w)) false)
                   (log (ev_askyesnocancel (ask_apply tmp_path) (Some false))
                        st)))
      as [E | [(? & ? & ? & [Hop|Hop] & _) | (m & Hf & Ha & E)]];
      try discriminate Hop; rewrite E; simpl;
      rewrite !List.filter_app; simpl; rewrite ?app_nil_r;
      repeat split; auto.
    + destruct (fault w remove_declined) eqn:Hf; [reflexivity|].
      unfold call in E. rewrite Hf in E. simpl in E.
      destruct (fs st !! tmp_path) eqn:Hl; [discriminate E|].
      symmetry. now apply delete_id.
    + rewrite Hf. now apply fs_apply_remove in Ha.
Qed.

Lemma declining_removes_temp_witness :
  fs (fst (install cancel_world "2.0.0" tmp_file downloaded)) = fs start.
Proof.
  destruct (declining_removes_temp cancel_world "2.0.0" tmp_file downloaded
              (or_introl eq_refl)) as (_ & _ & _ & Hfs).
  rewrite Hfs. reflexivity.
Defined.

Local Ltac invert_fs :=
  repeat match goal with
  | H : fs_apply (Copyfile _ _) _ = Some _ |- _ =>
      apply fs_apply_copy in H; destruct H as (? & ? & ->)
  | H : fs_apply (Move _ _) _ = Some _ |- _ =>
      apply fs_apply_move in H; destruct H as (? & ? & ->)
  | H : fs_apply (Replace _ _) _ = Some _ |- _ =>
      apply fs_apply_replace in H; destruct H as (? & ? & ->)
  | H : fs_apply (Remove _) _ = Some _ |- _ =>
      apply fs_apply_remove in H; subst
  end.

(** X18: Side-by-side launch saves before it starts anything.  Whenever
    the launch branch gets as far as its first [subprocess] call, the
    versioned file holds the downloaded bytes and the temporary file is
    gone, whether the move did the saving or the copy and the removal
    after a move that raised, and whatever that move had written.  The
    files the handler returns with are these, after what the commands
    it called did to them.  When the file cannot be saved, the download is
    still in the temporary file.  With no call raising the branch ends
    as launched. *)
Theorem launch_saves_before_it_starts (w : world) (v tmp_path name : string)
    (st : state) (data : content) :
  fs st !! tmp_path = Some data -> tmp_path <> name ->
  let r := launch_new_version w v tmp_path name st in
  (snd r = exit_launched ->
   exists m,
     fs (fst r) = outside w popen_new (outside w run_extra m) /\
     m !! name = Some data /\ m !! tmp_path = None) /\
  (snd r = exit_launch_error ->
   exists m,
     (fs (fst r) = outside w run_extra m \/
      fs (fst r) = outside w popen_new (outside w run_extra m)) /\
     m !! name = Some data /\ m !! tmp_path = None) /\
  (snd r = exit_save_error -> fs (fst r) !! tmp_path = Some data) /\
  (fault w move_side = false -> fault w run_extra = false ->
   fault w popen_new = false -> snd r = exit_launched).
Proof.
  intros Htmp Hne r. subst r. unfold launch_new_version, spawn.
  split; [|split; [|split]].
  - repeat step_fs; destruct (fault w run_extra), (fault w popen_new);
      simpl; intros Hexit; try discriminate Hexit;
      invert_fs; simpl in *; eexists; (split; [reflexivity|]);
      simplify_map_eq; auto.
  - repeat step_fs; destruct (fault w run_extra), (fault w popen_new);
      simpl; intros Hexit; try discriminate Hexit;
      invert_fs; simpl in *; eexists;
      (split; [first [left; reflexivity | right; reflexivity]|]);
      simplify_map_eq; auto.
  - repeat step_fs; destruct (fault w run_extra), (fault w popen_new);
      simpl; intros Hexit; try discriminate Hexit;
      invert_fs; simpl in *; simplify_map_eq; auto.
  - intros Hm Hr Hp.
    erewrite (call_ok w move_side); [| exact Hm | simpl; now rewrite Htmp].
    simpl. now rewrite Hr, Hp.
Qed.

Lemma launch_saves_before_it_starts_witness :
  fs (fst (launch_new_version side_by_side_world "2.0.0" tmp_file
             "/opt/game/PuzzleMania_v2.0.0.py" downloaded))
    !! "/opt/game/PuzzleMania_v2.0.0.py" = Some new_bytes.
Proof.
  assert (tmp_file <> "/opt/game/PuzzleMania_v2.0.0.py") as Hne
    by discriminate.
  destruct (launch_saves_before_it_starts side_by_side_world "2.0.0" tmp_file
              "/opt/game/PuzzleMania_v2.0.0.py" downloaded new_bytes
              eq_refl Hne) as (Hdone & _ & _ & Hexit).
  destruct (Hdone (Hexit eq_refl eq_refl eq_refl)) as (m & -> & Hname & _).
  exact Hname.
Defined.

(** ** The paths the handler works on *)

Section PathCalls.

Context {hasher : Hasher}.

Lemma adds_refl (Q : event -> Prop) (st : state) : adds Q st st.
Proof. exists []. split; [now rewrite app_nil_r | constructor]. Qed.

Lemma adds_trans (Q : event -> Prop) (a b c : state) :
  adds Q a b -> adds Q b c -> adds Q a c.
Proof.
  intros (l1 & H1 & F1) (l2 & H2 & F2). exists (l1 ++ l2). split.
  - now rewrite H2, H1, app_assoc.
  - apply Forall_app; auto.
Qed.

Lemma adds_log (Q : event -> Prop) (e : event) (a b : state) :
  Q e -> adds Q a b -> adds Q a (log e b).
Proof.
  intros H Hab. apply (adds_trans Q a b); [exact Hab|].
  exists [e]. split; [reflexivity | now constructor].
Qed.

Lemma names_none (ps : list string) (e : event) :
  event_paths e = [] -> names_only ps e.
Proof. intros H p Hp. rewrite H in Hp. destruct Hp. Qed.

Lemma names_one (ps : list string) (e : event) (p : string) :
  event_paths e = [p] -> In p ps -> names_only ps e.
Proof. intros H Hin q Hq. rewrite H in Hq. destruct Hq as [<-|[]]. exact Hin. Qed.

Lemma names_op (ps : list string) (s : site) (op : fsop) (r : bool) :
  (forall p, In p (op_paths op) -> In p ps) -> names_only ps (ev_fs s op r).
Proof. intros H p Hp. apply H. exact Hp. Qed.

Lemma call_adds (ps : list string) (w : world) (s : site) (op : fsop)
    (st : state) :
  (forall p, In p (op_paths op) -> In p ps) ->
  adds (names_only ps) st (fst (call w s op st)).
Proof.
  intros H.
  destruct (call_cases w s op st)
    as [-> | [(src & dst & c & _ & _ & ->) | (m & _ & _ & ->)]];
    (eexists; split; [reflexivity|]);
    (constructor; [now apply names_op | constructor]).
Qed.

Local Ltac then_adds H := eapply adds_trans; [exact H|].

Local Ltac log_adds :=
  repeat first
    [ apply adds_refl
    | apply adds_log;
      [ first [ now apply names_none
              | eapply names_one; [reflexivity | assumption] ]
      | ] ].

Lemma download_path (w : world) (url : option string) (st st' : state)
    (q : string) :
  _download_to_temp w url st = (st', Some q) -> q = mkstemp_name w.
Proof.
  unfold _download_to_temp. destruct url as [u|]; [|discriminate].
  destruct (network_body w u) as [|data ended]; [discriminate|].
  simpl. destruct (fs st !! mkstemp_name w); [discriminate|].
  destruct ended; [|discriminate]. now intros [= _ <-].
Qed.

Lemma download_adds (ps : list string) (w : world) (url : option string)
    (st : state) :
  In (mkstemp_name w) ps ->
  adds (names_only ps) st (fst (_download_to_temp w url st)).
Proof.
  intros Hin. unfold _download_to_temp.
  destruct url as [u|];
    [| exists [ev_urlopen None true]; split;
       [reflexivity | constructor; [now apply names_none | constructor]] ].
  destruct (network_body w u) as [|data ended].
  - exists [ev_urlopen (Some u) true]; split;
      [reflexivity | constructor; [now apply names_none | constructor]].
  - simpl. destruct (fs st !! mkstemp_name w).
    + exists [ev_urlopen (Some u) false; ev_mkstemp (mkstemp_name w) true].
      split; [simpl; now rewrite <- app_assoc|].
      repeat constructor;
        first [ now apply names_none
              | eapply names_one; [reflexivity | assumption] ].
    + exists [ev_urlopen (Some u) false; ev_mkstemp (mkstemp_name w) false;
              ev_copyfileobj (mkstemp_name w) (negb ended)].
      split; [destruct ended; simpl; now rewrite <- !app_assoc|].
      repeat constructor;
        first [ now apply names_none
              | eapply names_one; [reflexivity | assumption] ].
Qed.

Lemma verify_adds (ps : list string) (w : world) (sha256 : option string)
    (tmp_path : string) (st : state) :
  In tmp_path ps ->
  adds (names_only ps) st (fst (verify w sha256 tmp_path st)).
Proof.
  intros Hin. unfold verify, _compute_sha256.
  destruct (truthy sha256); [|apply adds_refl].
  destruct (fs st !! tmp_path); [|simpl; log_adds].
  destruct (negb _); [|simpl; log_adds].
  assert (adds (names_only ps) st (log (ev_sha256 tmp_path false) st)) as H0
    by log_adds.
  pose proof (call_adds ps w remove_mismatch (Remove tmp_path)
                (log (ev_sha256 tmp_path false) st)) as Hc.
  destruct (call w remove_mismatch (Remove tmp_path) _) as [st' []];
    simpl in *; then_adds H0;
    (eapply adds_trans; [apply Hc; intros p [<-|[]]; exact Hin|]);
    log_adds.
Qed.

(** What [check_download_verify] hands on to line 665. *)
Lemma check_result (w : world) (st st' : state) (v t : string) :
  check_download_verify w st = (st', inr (v, t)) ->
  t = mkstemp_name w /\
  exists info, network_json w UPDATE_INFO_URL = Some info /\
               info !! "version" = Some v /\
               answer_download w = true /\
               tuple_le (_version_tuple v) (_version_tuple CURRENT_VERSION)
                 = false.
Proof.
  unfold check_download_verify.
  destruct (network_json w UPDATE_INFO_URL) as [info|]; [|discriminate].
  destruct (info !! "version") as [v'|] eqn:Hv; simpl; [|discriminate].
  destruct (String.eqb v' EmptyString); simpl; [discriminate|].
  destruct (tuple_le _ _) eqn:Hle; [discriminate|].
  destruct (answer_download w) eqn:Hans; simpl; [|discriminate].
  destruct (_download_to_temp w (info !! "url") _) as [st1 [q|]] eqn:Hd;
    [|discriminate].
  apply download_path in Hd as ->.
  destruct (verify w (info !! "sha256") (mkstemp_name w) st1) as [st2 [e|]];
    [discriminate|].
  intros [= <- <- <-]. split; [reflexivity|]. exists info. auto.
Qed.

Lemma check_adds (ps : list string) (w : world) (st : state) :
  In (mkstemp_name w) ps ->
  adds (names_only ps) st (fst (check_download_verify w st)).
Proof.
  intros Hin. unfold check_download_verify.
  destruct (network_json w UPDATE_INFO_URL) as [info|]; [|simpl; log_adds].
  destruct (negb (truthy (info !! "version"))); [simpl; log_adds|].
  destruct (tuple_le _ _); [simpl; log_adds|].
  destruct (negb (answer_download w)); [simpl; log_adds|].
  set (st0 := log _ (log _ st)).
  assert (adds (names_only ps) st st0) as H0 by (subst st0; log_adds).
  pose proof (download_adds ps w (info !! "url") st0 Hin) as Hd.
  destruct (_download_to_temp w (info !! "url") st0) as [st1 [q|]] eqn:Ho;
    simpl in *; then_adds H0; then_adds Hd; [|log_adds].
  apply download_path in Ho as ->.
  pose proof (verify_adds ps w (info !! "sha256") (mkstemp_name w) st1 Hin)
    as Hv.
  destruct (verify w (info !! "sha256") (mkstemp_name w) st1) as [st2 [e|]];
    exact Hv.
Qed.

Local Ltac call_adds_step :=
  match goal with
  | |- adds (names_only ?ps) ?a _ =>
      match goal with
      | |- context [call ?w ?s ?op a] =>
          let H := fresh "H" in
          let E := fresh "E" in
          assert (adds (names_only ps) a (fst (call w s op a))) as H
            by (apply call_adds; simpl; intros ? ?; intuition (subst; assumption));
          destruct (call w s op a) as [? []] eqn:E; simpl in H; then_adds H
      | |- context [log ?e a] =>
          let H := fresh "H" in
          assert (adds (names_only ps) a (log e a)) as H by log_adds;
          then_adds H
      end
  end.

Lemma launch_adds (ps : list string) (w : world) (v tmp_path name : string)
    (st : state) :
  In tmp_path ps -> In name ps ->
  adds (names_only ps) st (fst (launch_new_version w v tmp_path name st)).
Proof.
  intros H1 H2. unfold launch_new_version.
  repeat (call_adds_step; simpl); try log_adds.
  all: destruct (fault w run_extra), (fault w popen_new); simpl;
    unfold adds, log; simpl; rewrite <- ?app_assoc; simpl;
    (eexists; split; [reflexivity|]);
    repeat (constructor; [now apply names_none|]); constructor.
Qed.

Lemma replace_adds (ps : list string) (w : world) (v tmp_path : string)
    (st : state) :
  In tmp_path ps -> In (abspath w (argv0 w)) ps ->
  In (abspath w (argv0 w) ++ ".bak")%string ps ->
  In (abspath w (argv0 w) ++ ".new")%string ps ->
  adds (names_only ps) st (fst (replace_current_file w v tmp_path st)).
Proof.
  intros H1 H2 H3 H4. unfold replace_current_file.
  call_adds_step.
  destruct (answer_replace w); simpl;
    repeat (call_adds_step; simpl); log_adds.
Qed.

End PathCalls.

(** X19: Whatever the manifest, the answers and the failures, every
    file-system call of the handler, and of the two helpers it calls, is
    on one of five paths: the temporary file, the versioned file next to
    the script, the script, its [.bak] and its [.new].  (What the
    commands started at lines 694 and 695 do is not the handler's call.) *)
Theorem handler_calls_name_five_paths {hasher : Hasher} (w : world)
    (st : state) :
  exists l,
    trace (fst (_on_check_for_update w st)) = trace st ++ l /\
    forall e p, In e l -> In p (event_paths e) -> In p (handler_paths w).
Proof.
  assert (adds (names_only (handler_paths w)) st
               (fst (_on_check_for_update w st))) as (l & Hl & HQ).
  { unfold _on_check_for_update.
    assert (In (mkstemp_name w) (handler_paths w)) as Hin by (simpl; auto).
    pose proof (check_adds (handler_paths w) w st Hin) as Hc.
    destruct (check_download_verify w st) as [st1 [e|[v t]]] eqn:E;
      [exact Hc|]. simpl in Hc.
    destruct (check_result w st st1 v t E) as (-> & info & Hj & Hv & _).
    assert (announced w = v) as Hann by (unfold announced; now rewrite Hj, Hv).
    eapply adds_trans; [exact Hc|]. unfold install.
    set (st2 := log _ st1).
    assert (adds (names_only (handler_paths w)) st1 st2) as H2
      by (apply adds_log; [now apply names_none | apply adds_refl]).
    eapply adds_trans; [exact H2|].
    destruct (answer_apply w) as [[|]|].
    - apply launch_adds; [exact Hin|].
      unfold handler_paths. rewrite Hann. simpl; auto.
    - apply replace_adds; simpl; auto 6.
    - pose proof (call_adds (handler_paths w) w remove_cancel
                    (Remove (mkstemp_name w)) st2) as Hr.
      destruct (call w remove_cancel (Remove (mkstemp_name w)) st2).
      apply Hr. intros p [<-|[]]. exact Hin. }
  exists l. split; [exact Hl|].
  intros e p He Hp. rewrite List.Forall_forall in HQ. exact (HQ e He p Hp).
Qed.

(** The in-place run of the example names the temporary file, the
    script, its backup and its staging file, and nothing else. *)
Example handler_calls_of_replace_run :
  concat (map event_paths (trace (fst (run replace_world)))) =
  [ tmp_file; tmp_file;
    script; (script ++ ".bak")%string;
    tmp_file; (script ++ ".new")%string;
    (script ++ ".new")%string; script ].
Proof. vm_compute. reflexivity. Qed.

Section QuietFacts.

Context {hasher : Hasher}.

Local Ltac quiet :=
  unfold log; simpl; rewrite ?List.filter_app; simpl; rewrite ?app_nil_r;
  auto.

Lemma call_quiet (w : world) (s : site) (op : fsop) (st : state) :
  List.filter is_process (trace (fst (call w s op st)))
  = List.filter is_process (trace st).
Proof.
  destruct (call_cases w s op st)
    as [E | [(src & dst & c & _ & _ & E) | (m & _ & _ & E)]];
    rewrite E; quiet.
Qed.

Lemma download_quiet (w : world) (url : option string) (st : state) :
  List.filter is_process (trace (fst (_download_to_temp w url st)))
  = List.filter is_process (trace st).
Proof.
  unfold _download_to_temp. destruct url as [u|]; [|quiet].
  destruct (network_body w u) as [|data ended]; [quiet|].
  simpl. destruct (fs st !! mkstemp_name w); [quiet|].
  destruct ended; quiet.
Qed.

Lemma verify_quiet (w : world) (sha256 : option string) (tmp_path : string)
    (st : state) :
  List.filter is_process (trace (fst (verify w sha256 tmp_path st)))
  = List.filter is_process (trace st).
Proof.
  unfold verify, _compute_sha256.
  destruct (truthy sha256); [|reflexivity].
  destruct (fs st !! tmp_path); [|quiet].
  destruct (negb _); [|quiet].
  pose proof (call_quiet w remove_mismatch (Remove tmp_path)
                (log (ev_sha256 tmp_path false) st)) as Hc.
  destruct (call w remove_mismatch (Remove tmp_path) _) as [st' []];
    simpl in *; rewrite ?List.filter_app, Hc; quiet.
Qed.

Lemma check_quiet (w : world) (st : state) :
  List.filter is_process (trace (fst (check_download_verify w st)))
  = List.filter is_process (trace st).
Proof.
  unfold check_download_verify.
  destruct (network_json w UPDATE_INFO_URL) as [info|]; [|quiet].
  destruct (negb (truthy (info !! "version"))); [quiet|].
  destruct (tuple_le _ _); [quiet|].
  destruct (negb (answer_download w)); [quiet|].
  set (st0 := log _ (log _ st)).
  assert (List.filter is_process (trace st0)
          = List.filter is_process (trace st)) as H0 by (subst st0; quiet).
  pose proof (download_quiet w (info !! "url") st0) as Hd.
  destruct (_download_to_temp w (info !! "url") st0) as [st1 [q|]];
    simpl in *; [|rewrite List.filter_app, Hd, H0; quiet].
  pose proof (verify_quiet w (info !! "sha256") q st1) as Hv.
  destruct (verify w (info !! "sha256") q st1) as [st2 [e|]];
    simpl in *; congruence.
Qed.

Lemma replace_quiet (w : world) (v tmp_path : string) (st : state) :
  List.filter is_process (trace (fst (replace_current_file w v tmp_path st)))
  = List.filter is_process (trace st).
Proof.
  unfold replace_current_file.
  destruct (answer_replace w); simpl; repeat step_fs; quiet.
Qed.

End QuietFacts.

(** X20: The handler starts a process only on the launch choice: when the
    answer to the apply question is "replace" or "cancel", no command is
    run and nothing is spawned, whatever else happens. *)
Theorem no_process_unless_launch {hasher : Hasher} (w : world) (st : state) :
  answer_apply w <> Some true ->
  List.filter is_process (trace (fst (_on_check_for_update w st)))
  = List.filter is_process (trace st).
Proof.
  intros Hans. unfold _on_check_for_update.
  pose proof (check_quiet w st) as Hc.
  destruct (check_download_verify w st) as [st1 [e|[v t]]];
    simpl in *; [exact Hc|].
  rewrite <- Hc. unfold install.
  destruct (answer_apply w) as [[|]|]; [contradiction| |].
  - rewrite replace_quiet. unfold log; simpl.
    rewrite List.filter_app; simpl. apply app_nil_r.
  - pose proof (call_quiet w remove_cancel (Remove t)
                  (log (ev_askyesnocancel (ask_apply t) None) st1)) as Hr.
    destruct (call w remove_cancel (Remove t) _); simpl in *.
    rewrite Hr. unfold log; simpl.
    rewrite List.filter_app; simpl. apply app_nil_r.
Qed.

Lemma no_process_unless_launch_witness :
  List.filter is_process (trace (fst (run replace_world))) = [].
Proof.
  assert (answer_apply replace_world <> Some true) as Hans by discriminate.
  exact (@no_process_unless_launch concat_hasher replace_world start Hans).
Defined.

(** ** In-place replacement: failure and the whole run *)

Lemma tmp_is_not_new (w : world) (p : string) :
  mkstemp_name w <> (p ++ ".new")%string.
Proof.
  destruct (mkstemp_name_suffix w) as [s ->]. intros H.
  change ".new"%string with (".ne" ++ "w")%string in H.
  rewrite <- string_app_assoc in H.
  apply string_app_last in H. discriminate H.
Qed.

(** X21: When in-place replacement ends with the error box, the call that
    raised last tells where the files stand, and the downloaded bytes
    are never lost.  The move to [<path>.new] raised: the script is what
    it was and the temporary file still holds the download.  The
    fallback copy raised: [<path>.new] holds the download and the
    temporary file is gone; nothing is said of the script, which the copy
    may have cut short.  The removal of [<path>.new] raised: the script
    already holds the download, and so does [<path>.new], although an
    error is reported. *)
Theorem failed_replacement_outcomes (w : world) (v : string) (st : state)
    (data : content) :
  answer_replace w = true ->
  fs st !! mkstemp_name w = Some data ->
  mkstemp_name w <> abspath w (argv0 w) ->
  let tmp_path := mkstemp_name w in
  let target_path := abspath w (argv0 w) in
  let final_tmp := (target_path ++ ".new")%string in
  let r := replace_current_file w v tmp_path st in
  snd r = exit_replace_error ->
  exists pre,
    (trace (fst r) =
       pre ++ [ev_fs move_staging (Move tmp_path final_tmp) true;
               ev_showerror msg_replace_error] /\
     fs (fst r) !! tmp_path = Some data /\
     fs (fst r) !! target_path = fs st !! target_path) \/
    (trace (fst r) =
       pre ++ [ev_fs copy_fallback (Copyfile final_tmp target_path) true;
               ev_showerror msg_replace_error] /\
     fs (fst r) !! final_tmp = Some data /\
     fs (fst r) !! tmp_path = None) \/
    (trace (fst r) =
       pre ++ [ev_fs remove_staging (Remove final_tmp) true;
               ev_showerror msg_replace_error] /\
     fs (fst r) !! target_path = Some data /\
     fs (fst r) !! final_tmp = Some data /\
     fs (fst r) !! tmp_path = None).
Proof.
  intros Hans Htmp Hnt tmp_path target_path final_tmp r.
  change (fs st !! tmp_path = Some data) in Htmp.
  pose proof (tmp_is_not_bak w target_path) as Htb.
  pose proof (tmp_is_not_new w target_path) as Htn.
  pose proof (bak_is_not_target target_path) as Hbt.
  pose proof (new_is_not_target target_path) as Hnew.
  pose proof (bak_is_not_new target_path) as Hbn.
  fold tmp_path in Htb, Htn, Hnt. fold target_path in Hnt.
  fold final_tmp in Htn, Hnew, Hbn.
  subst r. unfold replace_current_file. rewrite Hans. simpl negb. cbv iota.
  fold tmp_path target_path. fold final_tmp.
  repeat step_fs; unfold log; simpl; intros Hexit; try discriminate Hexit;
    invert_fs; simpl in *; eexists.
  all: first
    [ left; split; [rewrite <- app_assoc; reflexivity|];
      split; simplify_map_eq; reflexivity
    | right; left; split; [rewrite <- app_assoc; reflexivity|];
      split; simplify_map_eq; reflexivity
    | right; right; split; [rewrite <- app_assoc; reflexivity|];
      split; [|split]; simplify_map_eq; reflexivity ].
Qed.

Lemma failed_replacement_outcomes_witness :
  fs (fst (replace_current_file staging_fault_world "2.0.0" tmp_file
             downloaded)) !! tmp_file = Some new_bytes.
Proof.
  assert (mkstemp_name staging_fault_world
          <> abspath staging_fault_world (argv0 staging_fault_world)) as Hne
    by discriminate.
  destruct (failed_replacement_outcomes staging_fault_world "2.0.0"
              downloaded new_bytes eq_refl eq_refl Hne eq_refl)
    as (pre & [(_ & Ht & _) | [(_ & _ & Ht) | (_ & _ & _ & Ht)]]).
  - exact Ht.
  - exfalso. vm_compute in Ht. discriminate Ht.
  - exfalso. vm_compute in Ht. discriminate Ht.
Defined.

(** A fallback copy that raises after its first byte: the error is
    reported, the script holds that byte, and the download is whole in
    [<path>.new]; the backup, taken first, has the old script. *)
Example fallback_copy_cuts_the_script :
  snd (run torn_fallback_world) = exit_replace_error /\
  fs (fst (run torn_fallback_world)) !! script = Some [Byte.x4e] /\
  fs (fst (run torn_fallback_world)) !! (script ++ ".new")%string
    = Some new_bytes /\
  fs (fst (run torn_fallback_world)) !! (script ++ ".bak")%string
    = Some old_bytes /\
  fs (fst (run torn_fallback_world)) !! tmp_file = None.
Proof. vm_compute. intuition. Qed.

(** X22: The whole run of an in-place update: a newer version with a
    matching digest, the three questions answered with download,
    replace and yes, and no call raising.  The handler ends at
    "replacement done" (DONE); the script holds the downloaded bytes, its
    [.bak] holds what the script held before, and neither the temporary
    file nor [<path>.new] is left. *)
Theorem in_place_update_end_to_end {hasher : Hasher} (w : world)
    (st : state) (info : gmap string string) (v u d : string)
    (data old : content) :
  network_json w UPDATE_INFO_URL = Some info ->
  info !! "version" = Some v ->
  tuple_le (_version_tuple v) (_version_tuple CURRENT_VERSION) = false ->
  info !! "url" = Some u ->
  info !! "sha256" = Some d -> d <> EmptyString ->
  lower (sha256_of data) = lower d ->
  answer_download w = true ->
  answer_apply w = Some false ->
  answer_replace w = true ->
  network_body w u = body data true ->
  fs st !! mkstemp_name w = None ->
  fs st !! abspath w (argv0 w) = Some old ->
  fault w copy_backup = false ->
  fault w move_staging = false ->
  fault w replace_target = false ->
  let target_path := abspath w (argv0 w) in
  let r := _on_check_for_update w st in
  snd r = exit_replaced /\
  engine_state_of (snd r) = DONE /\
  fs (fst r) !! target_path = Some data /\
  fs (fst r) !! (target_path ++ ".bak")%string = Some old /\
  fs (fst r) !! mkstemp_name w = None /\
  fs (fst r) !! (target_path ++ ".new")%string = None /\
  List.filter is_report (trace (fst r)) =
    List.filter is_report (trace st) ++ [ev_showinfo (msg_replaced v)].
Proof.
  intros Hj Hv Hnew Hu Hsha Hd Hsame Hans1 Hans2 Hans3 Hb Hfresh Hold
         Hf1 Hf2 Hf3 target_path r.
  change (fs st !! target_path = Some old) in Hold.
  pose proof (tmp_is_not_bak w target_path) as Htb.
  pose proof (bak_is_not_target target_path) as Hbt.
  pose proof (new_is_not_target target_path) as Hnt.
  pose proof (bak_is_not_new target_path) as Hbn.
  assert (mkstemp_name w <> target_path) as Htt by congruence.
  assert (String.eqb target_path (target_path ++ ".bak")%string = false)
    as Heqb by (apply String.eqb_neq; congruence).
  subst r. unfold _on_check_for_update.
  rewrite (reaches_verification w st info v u data) by assumption.
  unfold verify. rewrite Hsha. simpl truthy.
  apply String.eqb_neq in Hd. rewrite Hd. simpl negb. cbv iota.
  unfold _compute_sha256. simpl fs. rewrite lookup_insert_eq.
  simpl default. apply String.eqb_eq in Hsame. rewrite Hsame.
  simpl negb. cbv iota.
  unfold install. rewrite Hans2. unfold replace_current_file.
  rewrite Hans3. simpl negb. cbv iota. fold target_path.
  erewrite (call_ok w copy_backup); [| exact Hf1 |].
  2:{ simpl. rewrite Heqb, lookup_insert_ne, Hold by auto. reflexivity. }
  erewrite (call_ok w move_staging); [| exact Hf2 |].
  2:{ simpl. rewrite lookup_insert_ne, lookup_insert_eq by auto.
      reflexivity. }
  erewrite (call_ok w replace_target); [| exact Hf3 |].
  2:{ simpl. rewrite lookup_insert_eq. reflexivity. }
  unfold log; simpl.
  repeat split; try (simplify_map_eq; reflexivity).
  - pose proof (tmp_is_not_new w target_path). simplify_map_eq. reflexivity.
  - rewrite !List.filter_app. simpl. rewrite !app_nil_r. reflexivity.
Qed.

Lemma in_place_update_end_to_end_witness :
  snd (run (example_world (manifest "2.0.0" (Some "new"))
              (body new_bytes true) (Some false) true no_fault))
  = exit_replaced.
Proof.
  assert ("new" <> EmptyString) as Hd by discriminate.
  destruct (@in_place_update_end_to_end concat_hasher
              (example_world (manifest "2.0.0" (Some "new"))
                 (body new_bytes true) (Some false) true no_fault)
              start (manifest "2.0.0" (Some "new")) "2.0.0" release_url "new"
              new_bytes old_bytes eq_refl eq_refl eq_refl eq_refl eq_refl Hd
              eq_refl eq_refl eq_refl eq_refl eq_refl eq_refl eq_refl
              eq_refl eq_refl eq_refl) as (He & _).
  exact He.
Defined.

(** ** The characters of an offered version *)

Section VersionChars.

Lemma int_space_is_space (c : ascii) :
  is_int_space c = true -> is_space c = true.
Proof. destruct c as [[] [] [] [] [] [] [] []]; auto. Qed.

Lemma lstrip_chars (P : ascii -> Prop) (l : list ascii) :
  (forall c, is_int_space c = true -> P c) ->
  Forall P (lstrip_int l) -> Forall P l.
Proof.
  intros Hsp. induction l as [|c l IH]; simpl; [auto|].
  destruct (is_int_space c) eqn:Hc; [|auto].
  intros H. constructor; auto.
Qed.

Lemma scan_chars (P : ascii -> Prop) (l : list ascii) :
  (forall c, is_digit c = true -> P c) -> P underscore ->
  forall (b : bool) (acc : Z) (n : nat) (v : Z) (m : nat) (rest : list ascii),
    scan b acc n l = Some (v, m, rest) -> Forall P rest -> Forall P l.
Proof.
  intros Hdig Hus. induction l as [|c l IH]; intros b acc n v m rest; simpl.
  - destruct b; [discriminate|]. now intros [= <- <- <-].
  - destruct (digit_value c) as [d|] eqn:Hd.
    + intros Hs Hrest. constructor; [|eapply IH; eauto].
      apply Hdig. unfold is_digit. now rewrite Hd.
    + destruct (Ascii.eqb_spec c underscore) as [->|Hne].
      * destruct b; [discriminate|].
        intros Hs Hrest. constructor; [exact Hus | eapply IH; eauto].
      * destruct b; [discriminate|]. now intros [= <- <- <-].
Qed.

Lemma version_char_cases (c : ascii) :
  is_digit c = true \/ is_space c = true \/ c = "+"%char \/ c = "-"%char
  \/ c = underscore \/ c = "."%char ->
  version_char c = true.
Proof.
  unfold version_char.
  intros [H | [H | [-> | [-> | [-> | ->]]]]]; try reflexivity;
    rewrite H; [reflexivity|].
  now rewrite orb_true_r.
Qed.

Lemma python_int_chars (x : string) (n : Z) :
  python_int x = Some n ->
  Forall (fun c => version_char c = true) (list_ascii_of_string x).
Proof.
  unfold python_int. intros H.
  apply lstrip_chars;
    [intros c Hc; apply version_char_cases; right; left;
     now apply int_space_is_space|].
  assert (forall l, match l with
            | c :: _ =>
                if Ascii.eqb c underscore then None
                else match scan false 0 0 l with
                     | Some (n0, digits, rest) =>
                         if (digits =? 0)%nat then None
                         else if (int_max_str_digits <? digits)%nat then None
                         else if forallb is_int_space rest
                              then Some n0 else None
                     | None => None
                     end
            | [] => None
            end <> @None Z ->
            Forall (fun c => version_char c = true) l) as Hbody.
  { intros l Hl. destruct l as [|c l]; [contradiction|].
    destruct (Ascii.eqb c underscore); [contradiction|].
    destruct (scan false 0 0 (c :: l)) as [[[n0 digits] rest]|] eqn:Hs;
      [|contradiction].
    destruct (digits =? 0)%nat; [contradiction|].
    destruct (int_max_str_digits <? digits)%nat; [contradiction|].
    destruct (forallb is_int_space rest) eqn:Hrest; [|contradiction].
    eapply (scan_chars _ (c :: l)); [| | exact Hs |].
    - intros c' Hc'. apply version_char_cases. auto.
    - apply version_char_cases. auto 10.
    - apply Forall_forall. intros c' Hin.
      apply version_char_cases. right. left. apply int_space_is_space.
      rewrite forallb_forall in Hrest. apply Hrest.
      now apply list_elem_of_In. }
  destruct (lstrip_int (list_ascii_of_string x)) as [|c l] eqn:Hl.
  - discriminate H.
  - destruct (Ascii.eqb_spec c "+") as [->|Hplus].
    + constructor; [reflexivity|]. apply Hbody.
      destruct l as [|c' l']; [discriminate H|].
      destruct (Ascii.eqb c' underscore); [discriminate H|].
      destruct (scan false 0 0 (c' :: l')) as [[[n0 digits] rest]|];
        [|discriminate H].
      destruct (digits =? 0)%nat; [discriminate H|].
      destruct (int_max_str_digits <? digits)%nat; [discriminate H|].
      destruct (forallb is_int_space rest); [discriminate | discriminate H].
    + destruct (Ascii.eqb_spec c "-") as [->|Hminus].
      * constructor; [reflexivity|]. apply Hbody.
        destruct l as [|c' l']; [discriminate H|].
        destruct (Ascii.eqb c' underscore); [discriminate H|].
        destruct (scan false 0 0 (c' :: l')) as [[[n0 digits] rest]|];
          [|discriminate H].
        destruct (digits =? 0)%nat; [discriminate H|].
        destruct (int_max_str_digits <? digits)%nat; [discriminate H|].
        destruct (forallb is_int_space rest); [discriminate | discriminate H].
      * apply Hbody.
        destruct (Ascii.eqb c underscore); [discriminate H|].
        destruct (scan false 0 0 (c :: l)) as [[[n0 digits] rest]|];
          [|discriminate H].
        destruct (digits =? 0)%nat; [discriminate H|].
        destruct (int_max_str_digits <? digits)%nat; [discriminate H|].
        destruct (forallb is_int_space rest); [discriminate | discriminate H].
Qed.

Lemma parse_segments_chars (segs : list string) (t : list Z) :
  parse_segments segs = Some t ->
  Forall (fun x => Forall (fun c => version_char c = true)
                          (list_ascii_of_string x)) segs.
Proof.
  revert t. induction segs as [|x segs IH]; intros t; simpl; [constructor|].
  destruct (python_int x) as [n|] eqn:Hx; [|discriminate].
  destruct (parse_segments segs) as [t'|]; [|discriminate].
  intros _. constructor; [eapply python_int_chars; eauto | eapply IH; eauto].
Qed.

Lemma split_chars (P : ascii -> Prop) (v : string) :
  P "."%char ->
  Forall (fun x => Forall P (list_ascii_of_string x)) (split "." v) ->
  Forall P (list_ascii_of_string v).
Proof.
  intros Hdot. induction v as [|c v IH]; simpl; [constructor|].
  destruct (Ascii.eqb_spec c ".") as [->|Hne].
  - intros H. inversion H; subst. constructor; auto.
  - pose proof (split_nonempty "." v) as Hs.
    destruct (split "." v) as [|h t]; [contradiction|].
    intros H. inversion H as [|? ? Hh Ht]; subst. simpl in Hh.
    inversion Hh; subst. constructor; [assumption|].
    apply IH. constructor; assumption.
Qed.

Lemma newer_is_well_formed (v : string) :
  tuple_le (_version_tuple v) (_version_tuple CURRENT_VERSION) = false ->
  well_formed v = true.
Proof.
  intros H. destruct (well_formed v) eqn:Hw; [reflexivity|].
  rewrite (version_tuple_malformed v Hw) in H. discriminate H.
Qed.

End VersionChars.

(** X23: An update is offered only for a version string made of digits,
    white space, signs, underscores and dots.  So the name of the
    versioned file, which is built from that string, holds no slash and
    no backslash: the file stays in the directory of the script. *)
Theorem offered_version_is_plain (v : string) :
  tuple_le (_version_tuple v) (_version_tuple CURRENT_VERSION) = false ->
  Forall (fun c => version_char c = true) (list_ascii_of_string v) /\
  Forall (fun c => c <> "/"%char /\ c <> "\"%char)
         (list_ascii_of_string ("PuzzleMania_v" ++ v ++ ".py")%string).
Proof.
  intros Hnew.
  assert (Forall (fun c => version_char c = true) (list_ascii_of_string v))
    as Hv.
  { apply split_chars; [reflexivity|].
    pose proof (newer_is_well_formed v Hnew) as Hw. unfold well_formed in Hw.
    destruct (parse_segments (split "." v)) as [t|] eqn:Hp; [|discriminate].
    eapply parse_segments_chars; eauto. }
  split; [exact Hv|].
  assert (forall a b, list_ascii_of_string (a ++ b)%string
                      = list_ascii_of_string a ++ list_ascii_of_string b)
    as Happ.
  { induction a as [|c a IH]; intros b; [reflexivity|].
    rewrite string_app_cons. simpl. now rewrite IH. }
  rewrite !Happ. apply Forall_app. split;
    [repeat constructor; discriminate|].
  apply Forall_app. split; [|repeat constructor; discriminate].
  eapply Forall_impl; [exact Hv|]. intros c Hc.
  split; intros ->; discriminate Hc.
Qed.

Lemma offered_version_is_plain_witness :
  Forall (fun c => version_char c = true) (list_ascii_of_string "2.0.0").
Proof.
  exact (proj1 (offered_version_is_plain "2.0.0" eq_refl)).
Defined.

(** A version string with a path in it is never offered. *)
Example traversal_version_not_offered :
  tuple_le (_version_tuple "9/../../x") (_version_tuple CURRENT_VERSION)
  = true.
Proof. reflexivity. Qed.

(** ** The leaderboard *)

Section LeaderboardFacts.

Lemma key_lt_asym (a b : Leaderboard.entry) :
  Leaderboard.key_lt a b = true -> Leaderboard.before a b.
Proof.
  unfold Leaderboard.before, Leaderboard.key_lt.
  destruct (tuple_cmp (Leaderboard.key a) (Leaderboard.key b)) eqn:E;
    try discriminate.
  apply tuple_cmp_flip in E. now rewrite E.
Qed.

Lemma before_trans (a b c : Leaderboard.entry) :
  Leaderboard.before a b -> Leaderboard.before b c -> Leaderboard.before a c.
Proof.
  unfold Leaderboard.before, Leaderboard.key_lt. intros Hab Hbc.
  destruct (tuple_cmp (Leaderboard.key c) (Leaderboard.key a)) eqn:Eca;
    try reflexivity.
  exfalso.
  destruct (tuple_cmp (Leaderboard.key b) (Leaderboard.key a)) eqn:Eba;
    try discriminate.
  - apply tuple_cmp_eq in Eba. rewrite Eba in Hbc. rewrite Eca in Hbc.
    discriminate.
  - apply tuple_cmp_flip in Eba.
    rewrite (tuple_cmp_less_trans _ _ _ Eca Eba) in Hbc. discriminate.
Qed.

Lemma insert_perm (x : Leaderboard.entry) (l : list Leaderboard.entry) :
  Leaderboard.insert x l ≡ₚ x :: l.
Proof.
  induction l as [|y l IH]; simpl; [reflexivity|].
  destruct (Leaderboard.key_lt y x); [|reflexivity].
  rewrite IH. apply Permutation_swap.
Qed.

Lemma sorted_perm (l : list Leaderboard.entry) : Leaderboard.sorted l ≡ₚ l.
Proof.
  induction l as [|x l IH]; simpl; [reflexivity|].
  now rewrite insert_perm, IH.
Qed.

Lemma insert_sorted (x : Leaderboard.entry) (l : list Leaderboard.entry) :
  StronglySorted Leaderboard.before l ->
  StronglySorted Leaderboard.before (Leaderboard.insert x l).
Proof.
  induction 1 as [|y l Hl IH Hy]; simpl; [repeat constructor|].
  destruct (Leaderboard.key_lt y x) eqn:E.
  - constructor; [exact IH|]. rewrite insert_perm.
    constructor; [now apply key_lt_asym | exact Hy].
  - constructor; [now constructor|].
    constructor; [exact E|].
    eapply Forall_impl; [exact Hy|]. intros z Hz.
    now apply (before_trans x y z).
Qed.

Lemma sorted_sorted (l : list Leaderboard.entry) :
  StronglySorted Leaderboard.before (Leaderboard.sorted l).
Proof.
  induction l as [|x l IH]; simpl; [constructor | now apply insert_sorted].
Qed.

(** Where [insert] puts a newcomer relative to an entry [e] that has
    only not-later entries before it and only later ones after it. *)
Lemma insert_around (x e : Leaderboard.entry)
    (pre post : list Leaderboard.entry) :
  Forall (fun y => Leaderboard.before y e) pre ->
  Forall (fun y => Leaderboard.key_lt e y = true) post ->
  exists pre' post',
    Leaderboard.insert x (pre ++ e :: post) = pre' ++ e :: post' /\
    Forall (fun y => Leaderboard.before y e) pre' /\
    Forall (fun y => Leaderboard.key_lt e y = true) post'.
Proof.
  intros Hpre Hpost. induction Hpre as [|y pre Hy Hpre IH]; simpl.
  - destruct (Leaderboard.key_lt e x) eqn:E.
    + exists [], (Leaderboard.insert x post). repeat split; auto.
      rewrite insert_perm. now constructor.
    + exists [x], post. repeat split; auto.
  - destruct (Leaderboard.key_lt y x) eqn:E.
    + destruct IH as (pre' & post' & -> & H1 & H2).
      exists (y :: pre'), post'. repeat split; auto.
    + exists (x :: y :: pre), post. repeat split; auto.
      constructor; [|now constructor].
      now apply (before_trans x y e).
Qed.

Lemma sorted_newcomer (old : list Leaderboard.entry) (e : Leaderboard.entry) :
  exists pre post,
    Leaderboard.sorted (old ++ [e]) = pre ++ e :: post /\
    Forall (fun y => Leaderboard.before y e) pre /\
    Forall (fun y => Leaderboard.key_lt e y = true) post.
Proof.
  induction old as [|x old (pre & post & IH & H1 & H2)]; simpl.
  - exists [], []. repeat split; auto.
  - rewrite IH. now apply insert_around.
Qed.

End LeaderboardFacts.

(** X24: After [save_leaderboard] has written the file, the board read back
    is in order (higher scores first, shorter times first among equal
    scores), has at most 200 entries, holds nothing but the new entry
    and entries the file held before, and, when the file held fewer than
    200 entries, holds all of them and the new one. *)
Theorem saved_board_is_ranked (disk : gmap string Leaderboard.file)
    (e : Leaderboard.entry) (path : string) :
  let old := Leaderboard.load_leaderboard disk path in
  let saved :=
    Leaderboard.load_leaderboard
      (fst (Leaderboard.save_leaderboard Leaderboard.written disk e path))
      path in
  StronglySorted Leaderboard.before saved /\
  (List.length saved <= 200)%nat /\
  (forall x, x ∈ saved -> x = e \/ x ∈ old) /\
  ((List.length old < 200)%nat -> saved ≡ₚ e :: old).
Proof.
  intros old saved.
  assert (saved = take 200 (Leaderboard.sorted (old ++ [e]))) as ->.
  { subst saved. unfold Leaderboard.save_leaderboard. simpl.
    unfold Leaderboard.load_leaderboard at 1.
    now rewrite lookup_insert_eq. }
  pose proof (sorted_perm (old ++ [e])) as Hperm.
  repeat split.
  - apply (StronglySorted_app_1_l _ _
             (drop 200 (Leaderboard.sorted (old ++ [e])))).
    rewrite take_drop. apply sorted_sorted.
  - rewrite length_take. lia.
  - intros x Hx. apply subseteq_take in Hx. rewrite Hperm in Hx.
    apply elem_of_app in Hx as [Hx|Hx]; [now right|].
    apply list_elem_of_singleton in Hx. now left.
  - intros Hlen. rewrite take_ge.
    + rewrite Hperm. symmetry. apply Permutation_cons_append.
    + rewrite (Permutation_length Hperm), length_app. simpl. lia.
Qed.

Lemma saved_board_is_ranked_witness :
  Leaderboard.load_leaderboard
    (fst (Leaderboard.save_leaderboard Leaderboard.written ∅ ada
            "leaderboard_gui.json"))
    "leaderboard_gui.json"
  ≡ₚ [ada].
Proof.
  destruct (saved_board_is_ranked ∅ ada "leaderboard_gui.json")
    as (_ & _ & _ & Hperm).
  apply Hperm. unfold Leaderboard.load_leaderboard.
  rewrite lookup_empty. simpl. lia.
Defined.

(** X25: The sort is stable and the new entry is appended before sorting: in
    the sorted board every entry that follows the new one is strictly
    worse than it, so the new entry ranks below all older entries with
    the same score and time. *)
Theorem newcomer_ranks_below_ties (old : list Leaderboard.entry)
    (e : Leaderboard.entry) :
  exists pre post,
    Leaderboard.sorted (old ++ [e]) = pre ++ e :: post /\
    Forall (fun y => Leaderboard.key_lt e y = false) pre /\
    Forall (fun y => Leaderboard.key_lt e y = true) post /\
    pre ++ post ≡ₚ old.
Proof.
  destruct (sorted_newcomer old e) as (pre & post & Heq & H1 & H2).
  exists pre, post. repeat split; auto.
  pose proof (sorted_perm (old ++ [e])) as Hperm. rewrite Heq in Hperm.
  rewrite <- Permutation_middle, <- Permutation_cons_append in Hperm.
  now apply Permutation_cons_inv in Hperm.
Qed.

(** X26: Saving to a file that is missing, that cannot be read as JSON, or
    that [clear_leaderboard] has just removed leaves a board with the
    new entry alone: what an unreadable file held is overwritten. *)
Theorem save_on_unusable_file (disk : gmap string Leaderboard.file)
    (e : Leaderboard.entry) (path : string) :
  (disk !! path = None \/ disk !! path = Some Leaderboard.garbage ->
   Leaderboard.load_leaderboard
     (fst (Leaderboard.save_leaderboard Leaderboard.written disk e path))
     path = [e]) /\
  Leaderboard.load_leaderboard
    (fst (Leaderboard.save_leaderboard Leaderboard.written
            (Leaderboard.clear_leaderboard false disk path) e path))
    path = [e] /\
  Leaderboard.load_leaderboard
    (Leaderboard.clear_leaderboard false disk path) path = [].
Proof.
  assert (forall d, d !! path = None \/ d !! path = Some Leaderboard.garbage ->
            Leaderboard.load_leaderboard
              (fst (Leaderboard.save_leaderboard Leaderboard.written d e path))
              path = [e]) as Hsave.
  { intros d Hd. unfold Leaderboard.save_leaderboard. simpl.
    unfold Leaderboard.load_leaderboard.
    rewrite lookup_insert_eq. destruct Hd as [-> | ->]; reflexivity. }
  assert (Leaderboard.clear_leaderboard false disk path !! path = None)
    as Hclear.
  { unfold Leaderboard.clear_leaderboard.
    destruct (disk !! path) eqn:Hd; [apply lookup_delete_eq | exact Hd]. }
  repeat split.
  - apply Hsave.
  - apply Hsave. now left.
  - unfold Leaderboard.load_leaderboard. now rewrite Hclear.
Qed.

Lemma save_on_unusable_file_witness :
  Leaderboard.load_leaderboard
    (fst (Leaderboard.save_leaderboard Leaderboard.written
            {[ "leaderboard_gui.json" := Leaderboard.garbage ]} ada
            "leaderboard_gui.json"))
    "leaderboard_gui.json" = [ada].
Proof.
  apply (proj1 (save_on_unusable_file
                  {[ "leaderboard_gui.json" := Leaderboard.garbage ]} ada
                  "leaderboard_gui.json")).
  right. reflexivity.
Defined.
